(** * gen-attributions: the dependency graph builder

    A shallow embedding of the graph resolution engine of
    [tools/gen-attributions/cmd] (the graph builder and [module.go]) and the
    properties of its cache key, depth bound, error policy and child order.

    Conventions of the embedding.
    - A Go [string] is a [string] (a sequence of bytes), a [[]byte] is a
      [list byte]; a nil slice and an empty slice are both [[]] (the code
      only ever asks for their [len]).
    - A pointer that the code tests against nil is an [option]; [*Module]
      values are created by [loadModulesFromModFile] only, each list of them
      is walked by exactly one call of [buildModulesDependencyGraph] and a
      node is not written to after it has been cached, so that the in-place
      updates of the loop are modelled by returning the updated list.
    - The package-level flag [lenient] and the collaborators (Go's standard
      library, [golang.org/x/mod], the archive download and the license
      classifier) are the parameters of the development, gathered in
      [World].
    - The builder's calls to the file system, to the archive download and
      its warnings are recorded in a journal, newest entry first. [Debug]
      logging is left out.
    - A call ends in an [outcome]: it returns a value, returns an error,
      exits the process ([log.Fatal]), panics, or exhausts the recursion
      budget of the model. *)

From Stdlib Require Import ZArith String Ascii List Bool Lia.
From Stdlib.Strings Require Import Byte.
From stdpp Require Import base option list gmap strings.

#[local] Set Warnings "-register-all".
#[local] Open Scope string_scope.

(** ** Go values *)

Definition bytes := list byte.

(** [module.Version] of golang.org/x/mod/module. *)
Module Version.
Record t := mk { Path : string; Version : string }.

#[global] Instance eq_dec : EqDecision t.
Proof. solve_decision. Defined.

#[global] Program Instance countable : Countable t :=
  inj_countable' (fun v => (Path v, Version v)) (fun p => mk p.1 p.2) _.
Next Obligation. by intros []. Qed.

(** [func (m Version) String() string] *)
Definition String (m : t) : string :=
  if String.eqb (Version m) "" then Path m
  else Path m +:+ "@" +:+ Version m.
End Version.

(** [License]: the raw text and the classified label. *)
Module License.
Record t := mk { Data : bytes; Name : string }.
End License.

(** [Module] of module.go. [Version] is never nil in a node the builder
    creates. *)
Inductive Module := mkModule {
  Version : Version.t;
  ReplacedBy : option Version.t;
  License : option License.t;
  Dependencies : list Module }.

Record Tree := mkTree { Root : Module }.

(** The part of [modfile.File] the builder reads: the [module] directive
    ([File.Module], nil when the file has none), the [Mod] of every
    [require] and the [Old], [New] of every [replace], in file order. *)
Module modfile.
Record Require := mkRequire { Mod : Version.t }.
Record Replace := mkReplace { Old : Version.t; New : Version.t }.
Record File := mkFile {
  ModuleMod : option Version.t;
  Requires : list Require;
  Replaces : list Replace }.
End modfile.

Record ModRoot := mkModRoot { ModFile : modfile.File; RootPath : string }.

(** ** Errors *)

Inductive Collaborator := Download | Archive | FileSystem | Parser | Classifier.

Inductive error :=
| ErrorGoModFileNotFound
| ErrorLicenseNotFound
| Errorf (msg : string) (cause : error)
| External (who : Collaborator) (msg : string).

(** [err.Error()]; [Errorf msg cause] is [fmt.Errorf(msg + ": %v", cause)]. *)
Fixpoint Error (e : error) : string :=
  match e with
  | ErrorGoModFileNotFound => "module file (go.mod) not found"
  | ErrorLicenseNotFound => "LICENSE file not found"
  | Errorf msg cause => msg +:+ ": " +:+ Error cause
  | External _ msg => msg
  end.

(** [err == ErrorLicenseNotFound], [err == ErrorGoModFileNotFound]: the
    comparison of an error with one of the package's two values. *)
Definition isErrorLicenseNotFound (e : error) : bool :=
  match e with ErrorLicenseNotFound => true | _ => false end.

Definition isErrorGoModFileNotFound (e : error) : bool :=
  match e with ErrorGoModFileNotFound => true | _ => false end.

(** A pair [(value, err)] returned by a function of the package. *)
Inductive result (A : Type) :=
| Val (a : A)
| Fail (e : error).
Arguments Val {A} a.
Arguments Fail {A} e.

(** ** Collaborators *)

(** What a collaborator answers: a value, or an error with its text. *)
Inductive answer (A : Type) :=
| Got (a : A)
| Failed (msg : string).
Arguments Got {A} a.
Arguments Failed {A} msg.

Definition answered {A} (who : Collaborator) (a : answer A) : result A :=
  match a with
  | Got x => Val x
  | Failed msg => Fail (External who msg)
  end.

(** An entry of [zipReader.File]: its name and what [file.Open()] followed
    by [ioutil.ReadAll] gives. *)
Inductive zipBody :=
| OpenFails (msg : string)
| ReadAllFails (msg : string)
| Contents (b : bytes).

Record zipFile := mkZipFile { zipName : string; zipBody_ : zipBody }.

(** An entry of [ioutil.ReadDir]: [file.Name()] and [file.IsDir()]. *)
Record FileInfo := mkFileInfo { Name : string; IsDir : bool }.

Record World := mkWorld {
  strings_ToLower : string -> string;
  strconv_Quote : string -> string;
  filepath_Join : string -> string -> string;
  filepath_Dir : string -> string;
  ioutil_ReadDir : string -> answer (list FileInfo);
  (** [ioutil.ReadFile] returns the bytes read so far and the error. *)
  ioutil_ReadFile : string -> bytes * option string;
  zip_NewReader : bytes -> answer (list zipFile);
  modfile_Parse : bytes -> answer modfile.File;
  downloadModule : Version.t -> answer bytes;
  (** Modelled from the spec: [gb.lc.detectLicense], the License
      Classifier, [classify(bytes) -> label string | UnrecognizedError]. *)
  detectLicense : bytes -> answer string }.

(** ** The builder's state and outcomes *)

Inductive Event :=
| EvDownload (v : Version.t)
| EvReadDir (path : string)
| EvReadFile (path : string)
| EvWarning (msg : string).

(** [graphBuilder]: the cache, and the journal of what the builder did. *)
Record graphBuilder := mkGraphBuilder {
  modulesCache : gmap string Module;
  journal : list Event }.

Inductive outcome (A : Type) :=
| Ok (a : A)
| Err (e : error)
| Exit (e : error)
| Panic
| OutOfFuel.
Arguments Ok {A} a.
Arguments Err {A} e.
Arguments Exit {A} e.
Arguments Panic {A}.
Arguments OutOfFuel {A}.

Definition M (A : Type) : Type := graphBuilder -> outcome A * graphBuilder.

Definition ret {A} (a : A) : M A := fun gb => (Ok a, gb).

Definition bind {A B} (m : M A) (k : A -> M B) : M B :=
  fun gb =>
    match m gb with
    | (Ok a, gb') => k a gb'
    | (Err e, gb') => (Err e, gb')
    | (Exit e, gb') => (Exit e, gb')
    | (Panic, gb') => (Panic, gb')
    | (OutOfFuel, gb') => (OutOfFuel, gb')
    end.

Notation "'do' x <- m ; k" := (bind m (fun x => k))
  (at level 10, x name, m at level 100, k at level 200, only parsing).

Definition throw {A} (e : error) : M A := fun gb => (Err e, gb).
Definition log_Fatal {A} (e : error) : M A := fun gb => (Exit e, gb).
Definition panic {A} : M A := fun gb => (Panic, gb).
Definition outOfFuel {A} : M A := fun gb => (OutOfFuel, gb).

(** The caller of a Go function receives its error as a value. *)
Definition try {A} (m : M A) : M (result A) :=
  fun gb =>
    match m gb with
    | (Ok a, gb') => (Ok (Val a), gb')
    | (Err e, gb') => (Ok (Fail e), gb')
    | (Exit e, gb') => (Exit e, gb')
    | (Panic, gb') => (Panic, gb')
    | (OutOfFuel, gb') => (OutOfFuel, gb')
    end.

Definition lift {A} (r : result A) : M A :=
  match r with
  | Val a => ret a
  | Fail e => throw e
  end.

Definition emit (ev : Event) : M unit :=
  fun gb => (Ok tt, mkGraphBuilder (modulesCache gb) (ev :: journal gb)).

(** [for _, x := range l { ... }] over pointers: the body updates [*x] in
    place, [continue] ends the body, [return err] ends the loop. *)
Fixpoint forEach {A} (body : A -> M A) (l : list A) : M (list A) :=
  match l with
  | [] => ret []
  | x :: l' =>
      do x' <- body x ;
      do l'' <- forEach body l' ;
      ret (x' :: l'')
  end.

(** Go's [int], taken as 64 bits wide: [depth+1] wraps around. *)
Definition int_wrap (z : Z) : Z :=
  ((z + 2 ^ 63) mod 2 ^ 64 - 2 ^ 63)%Z.

(** [strings.HasPrefix], [strings.TrimPrefix]. *)
Definition HasPrefix (s pre : string) : bool := String.prefix pre s.

Fixpoint sliceFrom (n : nat) (s : string) : string :=
  match n, s with
  | O, _ => s
  | S n', String _ s' => sliceFrom n' s'
  | S _, EmptyString => EmptyString
  end.

Definition TrimPrefix (s pre : string) : string :=
  if HasPrefix s pre then sliceFrom (String.length pre) s else s.

(** ** module.go *)

(** [fmt.Sprintf("=%v@%v", a, b)] and [fmt.Sprintf("%v@%v%v", a, b, c)] on
    strings. *)
Definition Sprintf_replaced (a b : string) : string := "=" +:+ a +:+ "@" +:+ b.
Definition Sprintf_id (a b c : string) : string := a +:+ "@" +:+ b +:+ c.

(** [func (m *Module) moduleID() string]. The result of the [Sprintf] in
    the branch of a replaced module is not assigned to [replaceByDetail]. *)
Definition moduleID (m : Module) : string :=
  let replaceByDetail := "" in
  let _ :=
    match ReplacedBy m with
    | Some r => Sprintf_replaced (Version.Version r) (Version.Path r)
    | None => ""
    end in
  Sprintf_id (Version.Version (Version m)) (Version.Path (Version m))
    replaceByDetail.

(** ** The graph builder *)

(** [newGraphBuilder]: an empty cache (and nothing done yet). *)
Definition newGraphBuilder : graphBuilder := mkGraphBuilder ∅ [].

(** The [replacementMap] of [loadModulesFromModFile]: a later [replace] of
    the same [Old] overwrites an earlier one. *)
Definition replacementMap (replaces : list modfile.Replace)
  : gmap Version.t Version.t :=
  fold_left (fun m r => <[modfile.Old r := modfile.New r]> m) replaces ∅.

Definition loadModulesFromModFile (modRoot : ModRoot) : list Module :=
  let mod_ := ModFile modRoot in
  let replacements := replacementMap (modfile.Replaces mod_) in
  map (fun r =>
         let reqVersion := modfile.Mod r in
         let replacedBy := replacements !! reqVersion in
         mkModule reqVersion replacedBy None [])
      (modfile.Requires mod_).

Definition getModuleFromCache (mod_ : Module) : M (option Module) :=
  fun gb => (Ok (modulesCache gb !! moduleID mod_), gb).

Definition cacheModule (m : Module) : M unit :=
  fun gb =>
    (Ok tt, mkGraphBuilder (<[moduleID m := m]> (modulesCache gb)) (journal gb)).

Section Builder.

(** The package-level [lenient] flag and the collaborators. *)
Variable lenient : bool.
Variable W : World.

(** [isLicenseFilename] *)
Definition isLicenseFilename (filename : string) : bool :=
  let name := strings_ToLower W filename in
  existsb (fun l => String.eqb name l)
    ["/license.txt"; "/license"; "/license.md"; "/copying"].

(** [file.Open()] then [ioutil.ReadAll(f)], with the two error messages
    of the caller. *)
Definition readZipFile (openMsg readMsg : string) (file : zipFile)
  : result bytes :=
  match zipBody_ file with
  | OpenFails msg => Fail (Errorf openMsg (External Archive msg))
  | ReadAllFails msg => Fail (Errorf readMsg (External Archive msg))
  | Contents b => Val b
  end.

(** [extractLicense]: the first entry whose trimmed name is a license
    file name. *)
Fixpoint extractLicense_loop (moduleFullName : string) (files : list zipFile)
  : result bytes :=
  match files with
  | [] => Fail ErrorLicenseNotFound
  | file :: rest =>
      let cleanFileName :=
        TrimPrefix (zipName file) (strings_ToLower W moduleFullName) in
      if isLicenseFilename cleanFileName then
        readZipFile "cannot open license file"
                    "cannot read license file content" file
      else extractLicense_loop moduleFullName rest
  end.

Definition extractLicense (moduleFullName : string) (zipfile : bytes)
  : result bytes :=
  match answered Archive (zip_NewReader W zipfile) with
  | Fail e => Fail e
  | Val files => extractLicense_loop moduleFullName files
  end.

(** [getRequiredModulesFromBytes] *)
Definition getRequiredModulesFromBytes (b : bytes)
  : result (ModRoot * list Module) :=
  match answered Parser (modfile_Parse W b) with
  | Fail e => Fail e
  | Val goMod =>
      let modRoot := mkModRoot goMod "" in
      let modules := loadModulesFromModFile modRoot in
      Val (modRoot, modules)
  end.

(** [getRequiredModules]: the first entry whose trimmed name is
    ["/go.mod"]. *)
Fixpoint getRequiredModules_loop (moduleFullName : string)
  (files : list zipFile) : result (ModRoot * list Module) :=
  match files with
  | [] => Fail ErrorGoModFileNotFound
  | file :: rest =>
      let cleanFileName := TrimPrefix (zipName file) moduleFullName in
      if String.eqb cleanFileName "/go.mod" then
        match readZipFile "cannot open mod file"
                          "cannot read file content" file with
        | Fail e => Fail e
        | Val b => getRequiredModulesFromBytes b
        end
      else getRequiredModules_loop moduleFullName rest
  end.

Definition getRequiredModules (moduleFullName : string) (zipfile : bytes)
  : result (ModRoot * list Module) :=
  match answered Archive (zip_NewReader W zipfile) with
  | Fail e => Fail e
  | Val files => getRequiredModules_loop moduleFullName files
  end.

(** The collaborators that act on the outside, with their journal entry. *)
Definition ReadDir (path : string) : M (list FileInfo) :=
  do _ <- emit (EvReadDir path) ;
  lift (answered FileSystem (ioutil_ReadDir W path)).

(** [ioutil.ReadFile]: both components of the pair are handed back. *)
Definition ReadFile (path : string) : M (bytes * option error) :=
  do _ <- emit (EvReadFile path) ;
  ret (fst (ioutil_ReadFile W path),
       option_map (External FileSystem) (snd (ioutil_ReadFile W path))).

Definition download (v : Version.t) : M bytes :=
  do _ <- emit (EvDownload v) ;
  lift (answered Download (downloadModule W v)).

Definition Warningf (msg : string) : M unit := emit (EvWarning msg).

(** [getRequiredModulesFromFile] *)
Definition getRequiredModulesFromFile (filename : string)
  : M (ModRoot * list Module) :=
  do r <- ReadFile filename ;
  match snd r with
  | Some err => throw err
  | None =>
      match answered Parser (modfile_Parse W (fst r)) with
      | Fail e => throw e
      | Val goMod =>
          let modRoot := mkModRoot goMod (filepath_Dir W filename) in
          let modules := loadModulesFromModFile modRoot in
          ret (modRoot, modules)
      end
  end.

(** The loop of the replaced branch over the directory listing:
    [licenseFile] and [childGoModFilename] are its two variables; the
    error of [ioutil.ReadFile] is assigned and not looked at. *)
Fixpoint scanLocalFiles (fullPath : string) (files : list FileInfo)
  (licenseFile : bytes) (childGoModFilename : string)
  : M (bytes * string) :=
  match files with
  | [] => ret (licenseFile, childGoModFilename)
  | file :: rest =>
      if negb (IsDir file) && isLicenseFilename ("/" +:+ Name file) then
        do r <- ReadFile (filepath_Join W fullPath (Name file)) ;
        scanLocalFiles fullPath rest (fst r) childGoModFilename
      else if String.eqb (Name file) "go.mod" then
        scanLocalFiles fullPath rest licenseFile
          (filepath_Join W fullPath (Name file))
      else scanLocalFiles fullPath rest licenseFile childGoModFilename
  end.

(** The last step of [extractLicenseAndRequiredModules] on a downloaded
    archive: the required modules of its go.mod; a missing go.mod is not
    an error of the caller. *)
Definition extractRequired (mod_ : Module) (moduleZip license : bytes)
  : M (option ModRoot * bytes * list Module) :=
  match getRequiredModules (Version.Version (Version mod_)) moduleZip with
  | Fail err =>
      if negb (isErrorGoModFileNotFound err) then throw err
      else ret (None, license, [])
  | Val (modRoot', requiredModules) =>
      ret (Some modRoot', license, requiredModules)
  end.

(** [extractLicenseAndRequiredModules]: the child's [ModRoot] (nil when
    there is none), the license bytes and the child modules. *)
Definition extractLicenseAndRequiredModules (modRoot : ModRoot)
  (mod_ : Module) : M (option ModRoot * bytes * list Module) :=
  match ReplacedBy mod_ with
  | Some replacedBy =>
      let fullPath :=
        filepath_Join W (RootPath modRoot) (Version.Path replacedBy) in
      do listing <- try (ReadDir fullPath) ;
      match listing with
      | Fail err => log_Fatal err
      | Val files =>
          do found <- scanLocalFiles fullPath files [] "" ;
          let licenseFile := fst found in
          let childGoModFilename := snd found in
          do child <- try (getRequiredModulesFromFile childGoModFilename) ;
          (* the error of [getRequiredModulesFromFile] is dropped here *)
          match child with
          | Val (childModRoot, childModules) =>
              ret (Some childModRoot, licenseFile, childModules)
          | Fail _ => ret (None, licenseFile, [])
          end
      end
  | None =>
      do downloaded <- try (download (Version mod_)) ;
      match downloaded with
      | Fail err =>
          if lenient then
            do _ <- Warningf ("Got download error: " +:+ Error err) ;
            ret (None, [], [])
          else throw err
      | Val moduleZip =>
          match extractLicense (Version.String (Version mod_)) moduleZip with
          | Fail err =>
              if negb (isErrorLicenseNotFound err && lenient) then throw err
              else extractRequired mod_ moduleZip []
          | Val license => extractRequired mod_ moduleZip license
          end
      end
  end.

(** The text of the license put in place of a missing one:
    [fmt.Sprintf("WARNING: ...\nUNKNOWN LICENSE FOR %q", mod.Version)]. *)
Definition placeholderLicense (v : Version.t) : bytes :=
  list_byte_of_string
    ("WARNING: YOU MUST OVERRIDE THIS WITH A PROPER LICENSE"
     +:+ String "010"%char "UNKNOWN LICENSE FOR "
     +:+ strconv_Quote W (Version.String v)).

(** Lines 144 to 154 of the loop: the label and the text of the license
    record. *)
Definition classifyLicense (mod_ : Module) (license : bytes)
  : M (string * bytes) :=
  if lenient && (length license =? 0)%nat then
    do _ <- Warningf ("No license found for "
                      +:+ Version.String (Version mod_)) ;
    ret ("Unknown", placeholderLicense (Version mod_))
  else
    do licenseType <- lift (answered Classifier (detectLicense W license)) ;
    ret (licenseType, license).

(** The body of the loop of [buildModulesDependencyGraph] for one [mod];
    [recurse] is the recursive call of the function. *)
Definition exploreModule
  (recurse : ModRoot -> list Module -> Z -> Z -> M (list Module))
  (modRoot : ModRoot) (depth maxDepth : Z) (mod_ : Module) : M Module :=
  if (depth =? maxDepth)%Z then ret mod_
  else
    do cached <- getModuleFromCache mod_ ;
    match cached with
    | Some cachedMod =>
        ret (mkModule (Version mod_) (ReplacedBy mod_)
                      (License cachedMod) (Dependencies cachedMod))
    | None =>
        do extracted <- extractLicenseAndRequiredModules modRoot mod_ ;
        let childModRoot := fst (fst extracted) in
        let license := snd (fst extracted) in
        let childModules := snd extracted in
        do classified <- classifyLicense mod_ license ;
        let licensed :=
          mkModule (Version mod_) (ReplacedBy mod_)
                   (Some (License.mk (snd classified) (fst classified)))
                   (Dependencies mod_) in
        do built <-
          match childModRoot with
          | Some childModRoot' =>
              do childModules' <-
                recurse childModRoot' childModules
                        (int_wrap (depth + 1)) maxDepth ;
              ret (mkModule (Version licensed) (ReplacedBy licensed)
                            (License licensed) childModules')
          | None => ret licensed
          end ;
        do _ <- cacheModule built ;
        ret built
    end.

(** [buildModulesDependencyGraph]; the updated [mods] are returned. The
    recursion of the source is bounded by [maxDepth] only when
    [depth <= maxDepth]: the model takes a budget of nested calls. *)
Fixpoint buildModulesDependencyGraph (fuel : nat) (modRoot : ModRoot)
  (mods : list Module) (depth maxDepth : Z) : M (list Module) :=
  match fuel with
  | O => outOfFuel
  | S fuel' =>
      forEach (exploreModule (buildModulesDependencyGraph fuel')
                             modRoot depth maxDepth) mods
  end.

(** [buildGraph] *)
Definition buildGraph (fuel : nat) (modRoot : ModRoot) (maxDepth : Z)
  : M Tree :=
  let requiredModules := loadModulesFromModFile modRoot in
  do built <- try (buildModulesDependencyGraph fuel modRoot
                     requiredModules 0 maxDepth) ;
  match built with
  | Fail err => throw (Errorf "cannot build modules tree" err)
  | Val requiredModules' =>
      match modfile.ModuleMod (ModFile modRoot) with
      | None => panic
      | Some rootVersion =>
          ret (mkTree (mkModule rootVersion None None requiredModules'))
      end
  end.

End Builder.

(** ** module.go: the tree as text *)

(** A [treeprint.Tree] as [Tree.String] builds it: the value of a node and
    its branches, in the order of the calls to [AddBranch]. *)
Inductive Branch := mkBranch { Value : string; Branches : list Branch }.

(** The loop [for _, m := range modules] of [addChildNodes]: the branches
    of the modules, in order; [None] is a run-time panic. *)
Definition eachBranch (branchOf : Module -> option Branch)
  : list Module -> option (list Branch) :=
  fix loop (modules : list Module) : option (list Branch) :=
    match modules with
    | [] => Some []
    | m :: rest =>
        match branchOf m with
        | None => None
        | Some child =>
            match loop rest with
            | None => None
            | Some children => Some (child :: children)
            end
        end
    end.

(** One turn of [addChildNodes]: the branch added for [m], labelled
    [m.Version.String() + " " + m.License.Name], and below it the branches
    of its dependencies. [m.License.Name] on a nil [License] is a nil
    pointer dereference. *)
Fixpoint addChildNode (m : Module) : option Branch :=
  match m with
  | mkModule version _ license dependencies =>
      match license with
      | None => None
      | Some l =>
          match eachBranch addChildNode dependencies with
          | None => None
          | Some children =>
              Some (mkBranch (Version.String version +:+ " " +:+ License.Name l)
                             children)
          end
      end
  end.

(** [addChildNodes]: the branches added to [parent]. *)
Definition addChildNodes (modules : list Module) : option (list Branch) :=
  eachBranch addChildNode modules.

(** [func (tree *Tree) String() string]; [render] is [root.String()] of
    treeprint. *)
Definition Tree_String (render : Branch -> string) (tree : Tree)
  : option string :=
  match addChildNodes (Dependencies (Root tree)) with
  | None => None
  | Some children =>
      Some (render (mkBranch (Version.Path (Version (Root tree))) children))
  end.

(** ** A world to run the builder in

    A small universe of modules: what the file system, the registry, the
    parser and the classifier answer for the paths and identities of the
    scenarios below; every other question gets an error. *)
Module Demo.

Definition text (s : string) : bytes := list_byte_of_string s.

Definition bytes_eqb (a b : bytes) : bool :=
  String.eqb (string_of_list_byte a) (string_of_list_byte b).

(** [strings.ToLower] on ASCII text. *)
Definition lowerAscii (c : ascii) : ascii :=
  let n := nat_of_ascii c in
  if (65 <=? n)%nat && (n <=? 90)%nat then ascii_of_nat (n + 32) else c.

Fixpoint ToLower (s : string) : string :=
  match s with
  | EmptyString => EmptyString
  | String c s' => String (lowerAscii c) (ToLower s')
  end.

(** [strconv.Quote] on printable ASCII text without quote or backslash. *)
Definition Quote (s : string) : string :=
  String "034"%char s +:+ String "034"%char EmptyString.

(** [filepath.Join] on the paths of the scenarios. *)
Definition Join (a b : string) : string :=
  if String.eqb b "../a" then "/src/a"
  else if String.eqb b "../broken" then "/src/broken"
  else if String.eqb b "../bare" then "/src/bare"
  else if String.eqb b "../missing" then "/src/missing"
  else a +:+ "/" +:+ b.

Definition Dir (p : string) : string :=
  if String.eqb p "/src/a/go.mod" then "/src/a"
  else if String.eqb p "/src/broken/go.mod" then "/src/broken"
  else if String.eqb p "/src/bare/go.mod" then "/src/bare"
  else ".".

Definition a := Version.mk "example.com/a" "v1.0.0".
Definition b := Version.mk "example.com/b" "v1.2.0".
Definition c := Version.mk "example.com/c" "v0.3.0".
Definition gone := Version.mk "example.com/gone" "v0.0.1".
Definition nolicense := Version.mk "example.com/nolicense" "v1.0.0".

Definition mit : bytes := text "MIT License".
Definition apache : bytes := text "Apache License Version 2.0".

Definition aGoMod : bytes :=
  text "module example.com/a require example.com/c v0.3.0 require example.com/b v1.2.0".
Definition bGoMod : bytes := text "module example.com/b require example.com/c v0.3.0".
Definition bareGoMod : bytes := text "module example.com/bare".
Definition brokenGoMod : bytes := text "modul example.com/broken requires".

Definition aFile : modfile.File :=
  modfile.mkFile (Some (Version.mk "example.com/a" ""))
    [modfile.mkRequire c; modfile.mkRequire b] [].
Definition bFile : modfile.File :=
  modfile.mkFile (Some (Version.mk "example.com/b" ""))
    [modfile.mkRequire c] [].
Definition bareFile : modfile.File :=
  modfile.mkFile (Some (Version.mk "example.com/bare" "")) [] [].

Definition ReadDir (p : string) : answer (list FileInfo) :=
  if String.eqb p "/src/a" then
    Got [mkFileInfo "LICENSE" false; mkFileInfo "go.mod" false;
         mkFileInfo "pkg" true]
  else if String.eqb p "/src/broken" then
    Got [mkFileInfo "LICENSE" false; mkFileInfo "go.mod" false]
  else if String.eqb p "/src/bare" then
    Got [mkFileInfo "go.mod" false; mkFileInfo "main.go" false]
  else Failed ("open " +:+ p +:+ ": no such file or directory").

Definition ReadFile (p : string) : bytes * option string :=
  if String.eqb p "/src/a/LICENSE" then (mit, None)
  else if String.eqb p "/src/a/go.mod" then (aGoMod, None)
  else if String.eqb p "/src/broken/LICENSE" then (mit, None)
  else if String.eqb p "/src/broken/go.mod" then (brokenGoMod, None)
  else if String.eqb p "/src/bare/go.mod" then (bareGoMod, None)
  else ([], Some ("open " +:+ p +:+ ": no such file or directory")).

Definition Parse (data : bytes) : answer modfile.File :=
  if bytes_eqb data aGoMod then Got aFile
  else if bytes_eqb data bGoMod then Got bFile
  else if bytes_eqb data bareGoMod then Got bareFile
  else Failed "unknown directive".

Definition bZip : bytes := text "zip of example.com/b@v1.2.0".
Definition cZip : bytes := text "zip of example.com/c@v0.3.0".
Definition nolicenseZip : bytes := text "zip of example.com/nolicense@v1.0.0".

Definition fetch (v : Version.t) : answer bytes :=
  if bool_decide (v = b) then Got bZip
  else if bool_decide (v = c) then Got cZip
  else if bool_decide (v = nolicense) then Got nolicenseZip
  else Failed ("404 Not Found: " +:+ Version.String v).

Definition NewReader (z : bytes) : answer (list zipFile) :=
  if bytes_eqb z bZip then
    Got [mkZipFile "example.com/b@v1.2.0/LICENSE" (Contents apache);
         mkZipFile "example.com/b@v1.2.0/b.go" (Contents (text "package b"));
         mkZipFile "example.com/b@v1.2.0/go.mod" (Contents bGoMod)]
  else if bytes_eqb z cZip then
    Got [mkZipFile "example.com/c@v0.3.0/COPYING" (Contents mit);
         mkZipFile "example.com/c@v0.3.0/c.go" (Contents (text "package c"))]
  else if bytes_eqb z nolicenseZip then
    Got [mkZipFile "example.com/nolicense@v1.0.0/main.go"
           (Contents (text "package main"))]
  else Failed "zip: not a valid zip file".

Definition classify (data : bytes) : answer string :=
  if bytes_eqb data mit then Got "MIT"
  else if bytes_eqb data apache then Got "Apache-2.0"
  else Failed "license not recognized".

Definition world : World :=
  mkWorld ToLower Quote Join Dir ReadDir ReadFile NewReader Parse fetch
          classify.

(** The root manifest of the scenarios, loaded from /src/root. *)
Definition rootOf (requires : list Version.t)
  (replaces : list (Version.t * Version.t)) : ModRoot :=
  mkModRoot
    (modfile.mkFile (Some (Version.mk "example.com/root" ""))
       (map modfile.mkRequire requires)
       (map (fun r => modfile.mkReplace (fst r) (snd r)) replaces))
    "/src/root".

Definition localA := Version.mk "../a" "".

(** The outcome of a build from a fresh builder. *)
Definition run (lenient : bool) (modRoot : ModRoot) (maxDepth : Z)
  : outcome Tree :=
  fst (buildGraph lenient world (S (Z.to_nat maxDepth)) modRoot maxDepth
         newGraphBuilder).

End Demo.

(** ** The vocabulary of the properties *)

(** The builder once [built] is cached. *)
Definition cached (built : Module) (gb : graphBuilder) : graphBuilder :=
  mkGraphBuilder (<[moduleID built := built]> (modulesCache gb)) (journal gb).

(** The builder once [ev] is in its journal. *)
Definition logged (ev : Event) (gb : graphBuilder) : graphBuilder :=
  mkGraphBuilder (modulesCache gb) (ev :: journal gb).

(** [keeps R m]: the builder after [m] is related by [R] to the builder
    before it, whatever the outcome. *)
Definition keeps {A} (R : graphBuilder -> graphBuilder -> Prop) (m : M A)
  : Prop :=
  forall gb, R gb (snd (m gb)).

(** The two builders have the same cache. *)
Definition sameCache (gb gb' : graphBuilder) : Prop :=
  modulesCache gb' = modulesCache gb.

(** [returns m]: [m] never stops for lack of budget. *)
Definition returns {A} (m : M A) : Prop :=
  forall gb, fst (m gb) <> OutOfFuel.

(** A read of the local strategy: of a file in the directory of the
    replacement, or of the empty file name (the manifest name when the
    directory has no go.mod). *)
Definition readUnder (W : World) (fullPath : string) (ev : Event) : Prop :=
  ev = EvReadFile "" \/ exists name, ev = EvReadFile (filepath_Join W fullPath name).

(** The children [children] of a node follow the requirement list of the
    manifest [mf]: the same identities, in the same order. *)
Definition inDeclaredOrder (mf : modfile.File) (children : list Module) : Prop :=
  map Version children = map modfile.Mod (modfile.Requires mf).

(** A manifest that the parser produced. *)
Definition parsedBy (W : World) (mf : modfile.File) : Prop :=
  exists data, modfile_Parse W data = Got mf.

(** The string has the byte [@]. *)
Fixpoint hasAt (s : string) : bool :=
  match s with
  | EmptyString => false
  | String ch s' => Ascii.eqb ch "@"%char || hasAt s'
  end.

(** The cache of the second builder has every entry of the first. *)
Definition cacheGrows (gb gb' : graphBuilder) : Prop :=
  modulesCache gb ⊆ modulesCache gb'.

(** Every cached node has a License Record. *)
Definition cacheLicensed (gb : graphBuilder) : Prop :=
  map_Forall (fun _ m => is_Some (License m)) (modulesCache gb).

(** The node is cached under its key, with its license and its children. *)
Definition isCached (gb : graphBuilder) (m : Module) : Prop :=
  exists c,
    modulesCache gb !! moduleID m = Some c
    /\ License c = License m /\ Dependencies c = Dependencies m.

(** The node and all the nodes below it have a License Record. *)
Fixpoint allLicensed (m : Module) : bool :=
  match m with
  | mkModule _ _ license dependencies =>
      match license with
      | None => false
      | Some _ => forallb allLicensed dependencies
      end
  end.

(** The errors a walk can return: never a missing manifest, never an
    error of the file system, a missing license or a failed download in
    strict mode only; and what the archive reader, the parser and the
    classifier answer. *)
Definition mayReturn (lenient : bool) (e : error) : bool :=
  match e with
  | ErrorGoModFileNotFound => false
  | ErrorLicenseNotFound => negb lenient
  | External Download _ => negb lenient
  | External FileSystem _ => false
  | External _ _ => true
  | Errorf _ (External Archive _) => true
  | Errorf _ _ => false
  end.

(** An error of the archive reader, as it is or wrapped once. *)
Definition fromArchive (e : error) : bool :=
  match e with
  | External Archive _ => true
  | Errorf _ (External Archive _) => true
  | _ => false
  end.

(** The label of the branch of a module: its identity and the label of
    its license (nothing for a module without License Record, whose branch
    is never made). *)
Definition branchLabel (m : Module) : string :=
  Version.String (Version m) +:+ " "
  +:+ match License m with Some l => License.Name l | None => "" end.

(** The outcome is not a panic, and when it is the exit of the process the
    error is one of the file system. *)
Definition tame {A} (o : outcome A) : Prop :=
  match o with
  | Exit (External FileSystem _) => True
  | Exit _ => False
  | Panic => False
  | _ => True
  end.

(** The entry of a directory listing is taken as a license file. *)
Definition isLicenseEntry (W : World) (file : FileInfo) : bool :=
  negb (IsDir file) && isLicenseFilename W ("/" +:+ Name file).

(** The entry of an archive is taken as the license file of the module. *)
Definition isLicenseZipEntry (W : World) (moduleFullName : string)
  (file : zipFile) : bool :=
  isLicenseFilename W
    (TrimPrefix (zipName file) (strings_ToLower W moduleFullName)).



(** The turn of the loop of [buildModulesDependencyGraph] for [mod_] once
    the Content Resolver has returned [extracted] (lines 142 to 174): the
    license step, the walk of the child modules and the caching. *)
Definition resolveWith (lenient : bool) (W : World)
  (recurse : ModRoot -> list Module -> Z -> Z -> M (list Module))
  (depth maxDepth : Z) (mod_ : Module)
  (extracted : option ModRoot * bytes * list Module) : M Module :=
  let childModRoot := fst (fst extracted) in
  let license := snd (fst extracted) in
  let childModules := snd extracted in
  do classified <- classifyLicense lenient W mod_ license ;
  let licensed :=
    mkModule (Version mod_) (ReplacedBy mod_)
             (Some (License.mk (snd classified) (fst classified)))
             (Dependencies mod_) in
  do built <-
    match childModRoot with
    | Some childModRoot' =>
        do childModules' <-
          recurse childModRoot' childModules (int_wrap (depth + 1)) maxDepth ;
        ret (mkModule (Version licensed) (ReplacedBy licensed)
                      (License licensed) childModules')
    | None => ret licensed
    end ;
  do _ <- cacheModule built ;
  ret built.

(** What the scan of the listing [files] of the directory [fullPath] leaves
    in [licenseFile]: what [ioutil.ReadFile] gives for the last license
    entry of the listing, nothing when there is none. *)
Definition localLicense (W : World) (fullPath : string)
  (files : list FileInfo) : bytes :=
  match last (List.filter (isLicenseEntry W) files) with
  | Some file => fst (ioutil_ReadFile W (filepath_Join W fullPath (Name file)))
  | None => []
  end.

(** What the scan leaves in [childGoModFilename]: the go.mod of the
    directory when an entry that is not a license entry has this name, the
    empty name otherwise. *)
Definition localManifest (W : World) (fullPath : string)
  (files : list FileInfo) : string :=
  if existsb (fun file => negb (isLicenseEntry W file)
                          && String.eqb (Name file) "go.mod") files
  then filepath_Join W fullPath "go.mod"
  else "".

(** The reads of the scan, newest first: one of every license entry of the
    listing. *)
Definition licenseReads (W : World) (fullPath : string)
  (files : list FileInfo) : list Event :=
  rev (map (fun file => EvReadFile (filepath_Join W fullPath (Name file)))
           (List.filter (isLicenseEntry W) files)).

(** The manifest [getRequiredModulesFromFile] makes of the file [filename],
    when the file can be read and parsed. *)
Definition localChild (W : World) (filename : string) : option ModRoot :=
  match snd (ioutil_ReadFile W filename) with
  | Some _ => None
  | None =>
      match modfile_Parse W (fst (ioutil_ReadFile W filename)) with
      | Got goMod => Some (mkModRoot goMod (filepath_Dir W filename))
      | Failed _ => None
      end
  end.

(** ** Reasoning about computations of the builder *)

Lemma bind_Ok {A B} (m : M A) (k : A -> M B) gb a gb' :
  m gb = (Ok a, gb') -> bind m k gb = k a gb'.
Proof. intros H. unfold bind. by rewrite H. Qed.

(** A loop whose body leaves every element and the builder as they are
    returns its list. *)
Lemma forEach_skip {A} (body : A -> M A) (l : list A) gb :
  (forall x gb0, body x gb0 = (Ok x, gb0)) -> forEach body l gb = (Ok l, gb).
Proof.
  intros Hbody. induction l as [|x l IH]; [done|].
  cbn [forEach]. rewrite (bind_Ok _ _ _ _ _ (Hbody x gb)).
  by rewrite (bind_Ok _ _ _ _ _ IH).
Qed.

(** The loop on a non-empty list: the body on the head, then the loop on
    the tail. *)
Lemma forEach_cons {A} (body : A -> M A) x (l : list A) gb x' gb' :
  body x gb = (Ok x', gb') ->
  forEach body (x :: l) gb =
    (do l' <- forEach body l ; ret (x' :: l')) gb'.
Proof. intros H. cbn [forEach]. by rewrite (bind_Ok _ _ _ _ _ H). Qed.

Section Keeps.

Variable R : graphBuilder -> graphBuilder -> Prop.
Hypothesis R_refl : forall gb, R gb gb.
Hypothesis R_trans : forall g1 g2 g3, R g1 g2 -> R g2 g3 -> R g1 g3.

Lemma keeps_ret {A} (a : A) : keeps R (ret a).
Proof. intros gb. apply R_refl. Qed.

Lemma keeps_throw {A} e : keeps R (@throw A e).
Proof. intros gb. apply R_refl. Qed.

Lemma keeps_lift {A} (r : result A) : keeps R (lift r).
Proof. destruct r; [apply keeps_ret | apply keeps_throw]. Qed.

Lemma keeps_bind {A B} (m : M A) (k : A -> M B) :
  keeps R m -> (forall a, keeps R (k a)) -> keeps R (bind m k).
Proof.
  intros Hm Hk gb. unfold bind. specialize (Hm gb).
  destruct (m gb) as [[a|e|e| |] gb1]; cbn in *; try done.
  eapply R_trans; [exact Hm | apply Hk].
Qed.

End Keeps.

Lemma returns_ret {A} (a : A) : returns (ret a).
Proof. by intros gb. Qed.

Lemma returns_throw {A} e : returns (@throw A e).
Proof. by intros gb. Qed.

Lemma returns_lift {A} (r : result A) : returns (lift r).
Proof. by destruct r. Qed.

Lemma returns_emit ev : returns (emit ev).
Proof. by intros gb. Qed.

Lemma returns_bind {A B} (m : M A) (k : A -> M B) :
  returns m -> (forall a, returns (k a)) -> returns (bind m k).
Proof.
  intros Hm Hk gb. unfold bind. specialize (Hm gb).
  destruct (m gb) as [[a|e|e| |] gb1]; cbn in *; try done. apply Hk.
Qed.

Lemma returns_try {A} (m : M A) : returns m -> returns (try m).
Proof.
  intros Hm gb. unfold try. specialize (Hm gb).
  by destruct (m gb) as [[a|e|e| |] gb1].
Qed.

Lemma returns_forEach {A} (body : A -> M A) (l : list A) :
  (forall x, returns (body x)) -> returns (forEach body l).
Proof.
  intros Hbody. induction l as [|x l IH]; cbn [forEach].
  - apply returns_ret.
  - apply returns_bind; [apply Hbody|]. intros x'.
    apply returns_bind; [apply IH|]. intros l'. apply returns_ret.
Qed.

(** ** The cache key *)

Lemma append_empty_r (s : string) : s +:+ "" = s.
Proof.
  induction s as [|ch s IH]; [done|].
  change (String ch (s +:+ "") = String ch s). by rewrite IH.
Qed.

Lemma moduleID_eq (m : Module) :
  moduleID m = Version.Version (Version m) +:+ "@" +:+ Version.Path (Version m).
Proof.
  unfold moduleID, Sprintf_id. cbv zeta.
  by rewrite (append_empty_r (Version.Path (Version m))).
Qed.

(** The key of a node does not depend on its replacement. *)
Lemma moduleID_ReplacedBy v r1 r2 l1 l2 d1 d2 :
  moduleID (mkModule v r1 l1 d1) = moduleID (mkModule v r2 l2 d2).
Proof. by rewrite !moduleID_eq. Qed.

(** C1 (the code at the failing input). Two nodes of identity
    example.com/a at v1.0.0, one replaced by the local path ../a and one
    not replaced, have the same cache key, version first and without any
    replacement detail: once the resolved replaced node is stored, the
    lookup of the node that is not replaced finds it. In a build, the
    module example.com/b replaced by the directory /src/bare (which holds
    no license) is given the record of the registry's example.com/b, cached
    before when it was met, not replaced, below example.com/a. *)
Theorem moduleID_collides :
  let plain := mkModule Demo.a None None [] in
  let replaced := mkModule Demo.a (Some Demo.localA) None [] in
  let resolved :=
    mkModule Demo.a (Some Demo.localA)
             (Some (License.mk Demo.mit "MIT")) [] in
  let bare := Version.mk "../bare" "" in
  let apache := Some (License.mk Demo.apache "Apache-2.0") in
  moduleID plain = "v1.0.0@example.com/a"
  /\ moduleID replaced = "v1.0.0@example.com/a"
  /\ fst (getModuleFromCache plain
            (snd (cacheModule resolved newGraphBuilder)))
     = Ok (Some resolved)
  /\ Demo.run false
       (Demo.rootOf [Demo.a; Demo.b] [(Demo.a, Demo.localA); (Demo.b, bare)])
       2
     = Ok (mkTree
             (mkModule (Version.mk "example.com/root" "") None None
                [mkModule Demo.a (Some Demo.localA)
                   (Some (License.mk Demo.mit "MIT"))
                   [mkModule Demo.c None (Some (License.mk Demo.mit "MIT")) [];
                    mkModule Demo.b None apache []];
                 mkModule Demo.b (Some bare) apache []])).
Proof. by vm_compute. Qed.

(** ** The depth bound *)

Lemma loadModulesFromModFile_Version (modRoot : ModRoot) :
  map Version (loadModulesFromModFile modRoot)
  = map modfile.Mod (modfile.Requires (ModFile modRoot)).
Proof.
  unfold loadModulesFromModFile. rewrite map_map. by apply map_ext.
Qed.

Lemma loadModulesFromModFile_fresh (modRoot : ModRoot) :
  Forall (fun m => License m = None /\ Dependencies m = [])
         (loadModulesFromModFile modRoot).
Proof.
  unfold loadModulesFromModFile. apply Forall_forall. intros m Hm.
  apply list_elem_of_In, in_map_iff in Hm. destruct Hm as (r & <- & _). done.
Qed.

Lemma exploreModule_at_bound lenient W recurse modRoot maxDepth mod_ gb :
  exploreModule lenient W recurse modRoot maxDepth maxDepth mod_ gb
  = (Ok mod_, gb).
Proof. unfold exploreModule. by rewrite Z.eqb_refl. Qed.

(** A walk at depth [maxDepth] returns its modules as they are and leaves
    the builder (its cache and its journal) as it was. *)
Lemma walk_at_bound lenient W fuel modRoot mods maxDepth gb :
  buildModulesDependencyGraph lenient W (S fuel) modRoot mods maxDepth
    maxDepth gb
  = (Ok mods, gb).
Proof.
  cbn [buildModulesDependencyGraph]. apply forEach_skip.
  intros x gb0. apply exploreModule_at_bound.
Qed.

(** ** One turn of the loop *)

(** A module that is not cached and for which the Content Resolver gives
    no child manifest keeps its children and gets its License Record. *)
Lemma exploreModule_leaf lenient W recurse modRoot depth maxDepth mod_
  gb license childModules gb1 classified gb2 :
  depth <> maxDepth ->
  modulesCache gb !! moduleID mod_ = None ->
  extractLicenseAndRequiredModules lenient W modRoot mod_ gb
  = (Ok (None, license, childModules), gb1) ->
  classifyLicense lenient W mod_ license gb1 = (Ok classified, gb2) ->
  let node :=
    mkModule (Version mod_) (ReplacedBy mod_)
             (Some (License.mk (snd classified) (fst classified)))
             (Dependencies mod_) in
  exploreModule lenient W recurse modRoot depth maxDepth mod_ gb
  = (Ok node, cached node gb2).
Proof.
  intros Hdepth Hmiss Hextract Hclassify node. unfold exploreModule.
  apply Z.eqb_neq in Hdepth. rewrite Hdepth.
  unfold getModuleFromCache at 1. unfold bind at 1. rewrite Hmiss.
  rewrite (bind_Ok _ _ _ _ _ Hextract). cbn [fst snd].
  rewrite (bind_Ok _ _ _ _ _ Hclassify). done.
Qed.

(** An error of the Content Resolver ends the turn with that error. *)
Lemma exploreModule_extract_Err lenient W recurse modRoot depth maxDepth mod_
  gb e gb1 :
  depth <> maxDepth ->
  modulesCache gb !! moduleID mod_ = None ->
  extractLicenseAndRequiredModules lenient W modRoot mod_ gb = (Err e, gb1) ->
  exploreModule lenient W recurse modRoot depth maxDepth mod_ gb = (Err e, gb1).
Proof.
  intros Hdepth Hmiss Hextract. unfold exploreModule.
  apply Z.eqb_neq in Hdepth. rewrite Hdepth.
  unfold getModuleFromCache at 1. unfold bind at 1. rewrite Hmiss.
  unfold bind at 1. by rewrite Hextract.
Qed.

Lemma exploreModule_extract_Exit lenient W recurse modRoot depth maxDepth mod_
  gb e gb1 :
  depth <> maxDepth ->
  modulesCache gb !! moduleID mod_ = None ->
  extractLicenseAndRequiredModules lenient W modRoot mod_ gb = (Exit e, gb1) ->
  exploreModule lenient W recurse modRoot depth maxDepth mod_ gb = (Exit e, gb1).
Proof.
  intros Hdepth Hmiss Hextract. unfold exploreModule.
  apply Z.eqb_neq in Hdepth. rewrite Hdepth.
  unfold getModuleFromCache at 1. unfold bind at 1. rewrite Hmiss.
  unfold bind at 1. by rewrite Hextract.
Qed.

(** ** The registry strategy *)

(** A module without replacement whose archive is downloaded. *)
Lemma extract_downloaded lenient W modRoot mod_ gb moduleZip :
  ReplacedBy mod_ = None ->
  downloadModule W (Version mod_) = Got moduleZip ->
  extractLicenseAndRequiredModules lenient W modRoot mod_ gb
  = match extractLicense W (Version.String (Version mod_)) moduleZip with
    | Fail err =>
        if negb (isErrorLicenseNotFound err && lenient) then throw err
        else extractRequired W mod_ moduleZip []
    | Val license => extractRequired W mod_ moduleZip license
    end (logged (EvDownload (Version mod_)) gb).
Proof.
  intros Hrep Hdl. unfold extractLicenseAndRequiredModules. rewrite Hrep.
  unfold download, try, bind, emit, lift, answered. by rewrite Hdl.
Qed.

(** A module without replacement whose download fails. *)
Lemma extract_download_failed lenient W modRoot mod_ gb msg :
  ReplacedBy mod_ = None ->
  downloadModule W (Version mod_) = Failed msg ->
  extractLicenseAndRequiredModules lenient W modRoot mod_ gb
  = if lenient then
      (Ok (None, [], []),
       logged (EvWarning ("Got download error: " +:+ msg))
              (logged (EvDownload (Version mod_)) gb))
    else
      (Err (External Download msg), logged (EvDownload (Version mod_)) gb).
Proof.
  intros Hrep Hdl. unfold extractLicenseAndRequiredModules. rewrite Hrep.
  unfold download, try, bind, emit, lift, answered. rewrite Hdl.
  by destruct lenient.
Qed.

(** A parse failure of a downloaded manifest is an error of the Content
    Resolver, in both modes. *)
Lemma extractRequired_Fail W mod_ moduleZip license gb e :
  getRequiredModules W (Version.Version (Version mod_)) moduleZip = Fail e ->
  isErrorGoModFileNotFound e = false ->
  extractRequired W mod_ moduleZip license gb = (Err e, gb).
Proof. intros Hmod He. unfold extractRequired. by rewrite Hmod, He. Qed.

Lemma getRequiredModulesFromBytes_parse_failure W data msg :
  modfile_Parse W data = Failed msg ->
  getRequiredModulesFromBytes W data = Fail (External Parser msg).
Proof. intros H. unfold getRequiredModulesFromBytes. by rewrite H. Qed.

(** ** Download failures *)

(** In lenient mode the license step with no license bytes gives the
    placeholder, whatever the classifier would say. *)
Lemma classifyLicense_lenient_empty W mod_ gb :
  classifyLicense true W mod_ [] gb
  = (Ok ("Unknown", placeholderLicense W (Version mod_)),
     logged (EvWarning ("No license found for "
                        +:+ Version.String (Version mod_))) gb).
Proof. done. Qed.

(** In strict mode the license step asks the classifier, also when there
    are no license bytes. *)
Lemma classifyLicense_strict W mod_ license gb :
  classifyLicense false W mod_ license gb
  = match detectLicense W license with
    | Got label => (Ok (label, license), gb)
    | Failed msg => (Err (External Classifier msg), gb)
    end.
Proof.
  unfold classifyLicense, lift, answered, bind. cbn.
  by destruct (detectLicense W license).
Qed.

(** C8, as amended. A module without replacement whose download fails: in
    strict mode the loop ends with the download error, after the one call
    to the registry. In lenient mode the Content Resolver returns no
    manifest, no license bytes and no children, and the loop goes on: the
    module stays in the graph without children, with the placeholder License
    Record labelled Unknown, is cached, and two warnings are logged. *)
Theorem download_failure_policy W fuel modRoot depth maxDepth mod_ rest gb msg :
  depth <> maxDepth ->
  modulesCache gb !! moduleID mod_ = None ->
  ReplacedBy mod_ = None ->
  Dependencies mod_ = [] ->
  downloadModule W (Version mod_) = Failed msg ->
  let tried := logged (EvDownload (Version mod_)) gb in
  let warned :=
    logged (EvWarning ("No license found for "
                       +:+ Version.String (Version mod_)))
      (logged (EvWarning ("Got download error: " +:+ msg)) tried) in
  let unknown :=
    mkModule (Version mod_) None
      (Some (License.mk (placeholderLicense W (Version mod_)) "Unknown")) [] in
  buildModulesDependencyGraph false W (S fuel) modRoot (mod_ :: rest)
    depth maxDepth gb
  = (Err (External Download msg), tried)
  /\ fst (extractLicenseAndRequiredModules true W modRoot mod_ gb)
     = Ok (None, [], [])
  /\ buildModulesDependencyGraph true W (S fuel) modRoot (mod_ :: rest)
       depth maxDepth gb
     = (do rest' <- buildModulesDependencyGraph true W (S fuel) modRoot
                      rest depth maxDepth ;
        ret (unknown :: rest')) (cached unknown warned).
Proof.
  intros Hdepth Hmiss Hrep Hdeps Hdl tried warned unknown.
  pose proof (extract_download_failed false W modRoot mod_ gb msg Hrep Hdl)
    as Hstrict.
  pose proof (extract_download_failed true W modRoot mod_ gb msg Hrep Hdl)
    as Hlenient.
  split; [|split].
  - cbn [buildModulesDependencyGraph forEach].
    unfold bind at 1.
    by rewrite (exploreModule_extract_Err _ _ _ _ _ _ _ _ _ _
                  Hdepth Hmiss Hstrict).
  - by rewrite Hlenient.
  - cbn [buildModulesDependencyGraph]. apply forEach_cons.
    rewrite (exploreModule_leaf _ _ _ _ _ _ _ _ _ _ _ _ _
               Hdepth Hmiss Hlenient (classifyLicense_lenient_empty W mod_ _)).
    by rewrite Hrep, Hdeps.
Qed.

Lemma download_failure_policy_witness :
  buildModulesDependencyGraph false Demo.world 3
    (Demo.rootOf [Demo.gone; Demo.c] [])
    [mkModule Demo.gone None None []; mkModule Demo.c None None []] 0 2
    newGraphBuilder
  = (Err (External Download "404 Not Found: example.com/gone@v0.0.1"),
     logged (EvDownload Demo.gone) newGraphBuilder)
  /\ fst (extractLicenseAndRequiredModules true Demo.world
            (Demo.rootOf [Demo.gone; Demo.c] [])
            (mkModule Demo.gone None None []) newGraphBuilder)
     = Ok (None, [], []).
Proof.
  assert (0 <> 2)%Z as Hdepth by lia.
  assert (downloadModule Demo.world Demo.gone
          = Failed "404 Not Found: example.com/gone@v0.0.1") as Hdl
    by (vm_compute; reflexivity).
  destruct (download_failure_policy Demo.world 2
              (Demo.rootOf [Demo.gone; Demo.c] []) 0 2
              (mkModule Demo.gone None None [])
              [mkModule Demo.c None None []] newGraphBuilder
              "404 Not Found: example.com/gone@v0.0.1"
              Hdepth eq_refl eq_refl eq_refl Hdl) as (Hstrict & Hlenient & _).
  split; [exact Hstrict | exact Hlenient].
Defined.

(** C8, as stated, fails: in lenient mode the module whose download failed
    is in the graph with a License Record that is not empty, the
    placeholder text under the label Unknown. *)
Lemma download_failure_license_counterexample :
  Demo.run true (Demo.rootOf [Demo.gone] []) 2
  = Ok (mkTree
          (mkModule (Version.mk "example.com/root" "") None None
             [mkModule Demo.gone None
                (Some (License.mk
                         (placeholderLicense Demo.world Demo.gone) "Unknown"))
                []]))
  /\ placeholderLicense Demo.world Demo.gone
     = Demo.text ("WARNING: YOU MUST OVERRIDE THIS WITH A PROPER LICENSE"
                  +:+ String "010"%char "UNKNOWN LICENSE FOR "
                  +:+ Demo.Quote "example.com/gone@v0.0.1")
  /\ placeholderLicense Demo.world Demo.gone <> [].
Proof. by vm_compute. Qed.

(** ** The local strategy *)

(** C10. A required module with a replacement whose directory cannot be
    listed ends the process, in strict and in lenient mode alike: the
    Content Resolver exits with the error of the listing, and so do the
    loop that reached the module and the build of a root manifest whose
    first requirement it is; no error value is returned and no License
    Record is made up. *)
Theorem unreadable_replacement_exits lenient W fuel modRoot depth maxDepth
  mod_ rest gb replacedBy msg :
  depth <> maxDepth ->
  modulesCache gb !! moduleID mod_ = None ->
  ReplacedBy mod_ = Some replacedBy ->
  ioutil_ReadDir W
    (filepath_Join W (RootPath modRoot) (Version.Path replacedBy))
  = Failed msg ->
  let fullPath :=
    filepath_Join W (RootPath modRoot) (Version.Path replacedBy) in
  let stopped :=
    (@Exit (list Module) (External FileSystem msg),
     logged (EvReadDir fullPath) gb) in
  extractLicenseAndRequiredModules lenient W modRoot mod_ gb
  = (Exit (External FileSystem msg), logged (EvReadDir fullPath) gb)
  /\ buildModulesDependencyGraph lenient W (S fuel) modRoot (mod_ :: rest)
       depth maxDepth gb
     = stopped
  /\ (depth = 0%Z -> loadModulesFromModFile modRoot = mod_ :: rest ->
      buildGraph lenient W (S fuel) modRoot maxDepth gb
      = (Exit (External FileSystem msg), logged (EvReadDir fullPath) gb)).
Proof.
  intros Hdepth Hmiss Hrep Hdir fullPath stopped.
  assert (extractLicenseAndRequiredModules lenient W modRoot mod_ gb
          = (Exit (External FileSystem msg), logged (EvReadDir fullPath) gb))
    as Hextract.
  { unfold extractLicenseAndRequiredModules. rewrite Hrep.
    unfold ReadDir, try, bind, emit, lift, answered. by rewrite Hdir. }
  assert (buildModulesDependencyGraph lenient W (S fuel) modRoot
            (mod_ :: rest) depth maxDepth gb = stopped) as Hloop.
  { cbn [buildModulesDependencyGraph forEach]. unfold bind at 1.
    by rewrite (exploreModule_extract_Exit _ _ _ _ _ _ _ _ _ _
                  Hdepth Hmiss Hextract). }
  split; [done|]. split; [done|].
  intros -> Hload. unfold buildGraph, try, bind. by rewrite Hload, Hloop.
Qed.

Lemma unreadable_replacement_exits_witness :
  Demo.run true
    (Demo.rootOf [Demo.a] [(Demo.a, Version.mk "../missing" "")]) 2
  = Exit (External FileSystem
            "open /src/missing: no such file or directory").
Proof.
  exact (f_equal fst
           (proj2 (proj2 (unreadable_replacement_exits true Demo.world 2
              (Demo.rootOf [Demo.a] [(Demo.a, Version.mk "../missing" "")])
              0 2 (mkModule Demo.a (Some (Version.mk "../missing" "")) None [])
              [] newGraphBuilder (Version.mk "../missing" "")
              "open /src/missing: no such file or directory"
              ltac:(lia) eq_refl eq_refl eq_refl)) eq_refl eq_refl)).
Defined.

Lemma ReadFile_eq W path gb :
  ReadFile W path gb
  = (Ok (fst (ioutil_ReadFile W path),
         option_map (External FileSystem) (snd (ioutil_ReadFile W path))),
     logged (EvReadFile path) gb).
Proof. done. Qed.

Lemma scanLocalFiles_spec W fullPath files :
  forall licenseFile childGoModFilename gb,
  exists licenseFile' childGoModFilename' evs,
    scanLocalFiles W fullPath files licenseFile childGoModFilename gb
    = (Ok (licenseFile', childGoModFilename'),
       mkGraphBuilder (modulesCache gb) (evs ++ journal gb))
    /\ Forall (readUnder W fullPath) evs
    /\ (licenseFile' = licenseFile
        \/ exists name,
             licenseFile' = fst (ioutil_ReadFile W (filepath_Join W fullPath name)))
    /\ (childGoModFilename' = childGoModFilename
        \/ childGoModFilename' = filepath_Join W fullPath "go.mod").
Proof.
  induction files as [|file rest IH]; intros licenseFile childGoModFilename gb.
  - exists licenseFile, childGoModFilename, []. destruct gb. cbn. auto.
  - cbn [scanLocalFiles].
    destruct (negb (IsDir file) && isLicenseFilename W ("/" +:+ Name file)).
    + rewrite (bind_Ok _ _ _ _ _ (ReadFile_eq W _ gb)). cbn [fst].
      destruct (IH (fst (ioutil_ReadFile W (filepath_Join W fullPath (Name file))))
                  childGoModFilename
                  (logged (EvReadFile (filepath_Join W fullPath (Name file))) gb))
        as (l' & g' & evs & -> & Hevs & Hl & Hg).
      exists l', g', (evs ++ [EvReadFile (filepath_Join W fullPath (Name file))])%list.
      cbn. rewrite <- app_assoc. cbn. split; [done|]. split.
      { apply Forall_app. split; [done|]. constructor; [|done].
        right. by eexists. }
      split; [|done]. destruct Hl as [-> | Hl]; [right; by eexists | by right].
    + destruct (String.eqb (Name file) "go.mod") eqn:Hname.
      * apply String.eqb_eq in Hname. rewrite Hname.
        destruct (IH licenseFile (filepath_Join W fullPath "go.mod") gb)
          as (l' & g' & evs & -> & Hevs & Hl & Hg).
        exists l', g', evs. split; [done|]. split; [done|]. split; [done|].
        right. by destruct Hg as [-> | ->].
      * apply IH.
Qed.

(** What [getRequiredModulesFromFile] returns, by the answers of the file
    system and of the parser. *)
Lemma getRequiredModulesFromFile_eq W filename gb :
  getRequiredModulesFromFile W filename gb
  = (match snd (ioutil_ReadFile W filename) with
     | Some msg => Err (External FileSystem msg)
     | None =>
         match modfile_Parse W (fst (ioutil_ReadFile W filename)) with
         | Failed msg => Err (External Parser msg)
         | Got goMod =>
             Ok (mkModRoot goMod (filepath_Dir W filename),
                 loadModulesFromModFile
                   (mkModRoot goMod (filepath_Dir W filename)))
         end
     end, logged (EvReadFile filename) gb).
Proof.
  unfold getRequiredModulesFromFile.
  rewrite (bind_Ok _ _ _ _ _ (ReadFile_eq W _ gb)). cbn [fst snd].
  destruct (snd (ioutil_ReadFile W filename)); [done|]. cbn.
  by destruct (modfile_Parse W (fst (ioutil_ReadFile W filename))).
Qed.

Lemma ReadDir_eq W path gb :
  try (ReadDir W path) gb
  = (Ok (answered FileSystem (ioutil_ReadDir W path)),
     logged (EvReadDir path) gb).
Proof.
  unfold ReadDir, try, bind, emit, lift.
  by destruct (answered FileSystem (ioutil_ReadDir W path)).
Qed.

(** The local strategy, step by step: the listing, the scan of the listing
    and the manifest. *)
Lemma extract_replaced lenient W modRoot mod_ replacedBy gb :
  ReplacedBy mod_ = Some replacedBy ->
  let fullPath :=
    filepath_Join W (RootPath modRoot) (Version.Path replacedBy) in
  extractLicenseAndRequiredModules lenient W modRoot mod_ gb
  = match ioutil_ReadDir W fullPath with
    | Failed msg =>
        (Exit (External FileSystem msg), logged (EvReadDir fullPath) gb)
    | Got files =>
        match scanLocalFiles W fullPath files [] ""
                (logged (EvReadDir fullPath) gb) with
        | (Ok found, gb1) =>
            (Ok match fst (getRequiredModulesFromFile W (snd found) gb1) with
                | Ok child => (Some (fst child), fst found, snd child)
                | _ => (None, fst found, [])
                end,
             logged (EvReadFile (snd found)) gb1)
        | (Err e, gb1) => (Err e, gb1)
        | (Exit e, gb1) => (Exit e, gb1)
        | (Panic, gb1) => (Panic, gb1)
        | (OutOfFuel, gb1) => (OutOfFuel, gb1)
        end
    end.
Proof.
  intros Hrep fullPath. unfold extractLicenseAndRequiredModules.
  rewrite Hrep. fold fullPath. cbv zeta.
  rewrite (bind_Ok _ _ _ _ _ (ReadDir_eq W fullPath gb)).
  destruct (ioutil_ReadDir W fullPath) as [files|msg]; [|done].
  cbn [answered]. unfold bind at 1.
  destruct (scanLocalFiles W fullPath files [] "" (logged (EvReadDir fullPath) gb))
    as [[found|e|e| |] gb1]; try done.
  unfold bind, try. rewrite !getRequiredModulesFromFile_eq. cbn [fst snd].
  destruct (snd (ioutil_ReadFile W (snd found))); [done|].
  destruct (modfile_Parse W (fst (ioutil_ReadFile W (snd found)))); done.
Qed.

(** C6 (the code at the failing input). The root manifest requires
    example.com/a and example.com/b and replaces both by local directories,
    ../a and ../bare; the go.mod of /src/a requires example.com/b without
    replacement. The strict build with depth bound 2 returns a tree. Its
    journal (newest entry first) shows the listing and the reads of /src/a,
    then the downloads of c and of b for the requirements of a, and nothing
    else: the directory /src/bare of the replacement of b is never listed
    and none of its files is read. The replaced b of the root carries the
    license of the archive downloaded for the b that a requires, found in
    the cache under the key the two nodes share, whereas the Content
    Resolver, had it been called for the replaced b, lists /src/bare, reads
    its go.mod and finds no license there. *)
Theorem replaced_module_never_read :
  let bare := Version.mk "../bare" "" in
  let modRoot :=
    Demo.rootOf [Demo.a; Demo.b] [(Demo.a, Demo.localA); (Demo.b, bare)] in
  let replacedB := mkModule Demo.b (Some bare) None [] in
  let res := buildGraph false Demo.world 3 modRoot 2 newGraphBuilder in
  loadModulesFromModFile modRoot
  = [mkModule Demo.a (Some Demo.localA) None []; replacedB]
  /\ (exists tree,
        fst res = Ok tree
        /\ last (Dependencies (Root tree))
           = Some (mkModule Demo.b (Some bare)
                     (Some (License.mk Demo.apache "Apache-2.0")) []))
  /\ journal (snd res)
     = [EvDownload Demo.b; EvDownload Demo.c; EvReadFile "/src/a/go.mod";
        EvReadFile "/src/a/LICENSE"; EvReadDir "/src/a"]
  /\ moduleID replacedB = moduleID (mkModule Demo.b None None [])
  /\ extractLicenseAndRequiredModules false Demo.world modRoot replacedB
       newGraphBuilder
     = (Ok (Some (mkModRoot Demo.bareFile "/src/bare"), [], []),
        mkGraphBuilder ∅ [EvReadFile "/src/bare/go.mod"; EvReadDir "/src/bare"]).
Proof.
  intros bare modRoot replacedB res.
  split; [by vm_compute|]. split; [eexists; split; by vm_compute|].
  split; [by vm_compute|]. split; by vm_compute.
Qed.

(** ** The local strategy, exactly *)

(** The scan of a listing in one step: the license is the one of the last
    license entry, the manifest name is the go.mod of the directory when an
    entry that is not a license entry has this name, and every license
    entry is read once, in the order of the listing. *)
Lemma scanLocalFiles_eq W fullPath files :
  forall licenseFile childGoModFilename gb,
    scanLocalFiles W fullPath files licenseFile childGoModFilename gb
    = (Ok (match last (List.filter (isLicenseEntry W) files) with
           | Some file =>
               fst (ioutil_ReadFile W (filepath_Join W fullPath (Name file)))
           | None => licenseFile
           end,
           if existsb (fun file => negb (isLicenseEntry W file)
                                   && String.eqb (Name file) "go.mod") files
           then filepath_Join W fullPath "go.mod"
           else childGoModFilename),
       mkGraphBuilder (modulesCache gb)
         (licenseReads W fullPath files ++ journal gb)%list).
Proof.
  induction files as [|file rest IH]; intros licenseFile childGoModFilename gb.
  - by destruct gb.
  - cbn [scanLocalFiles List.filter existsb]. unfold licenseReads.
    cbn [List.filter]. fold (isLicenseEntry W file).
    destruct (isLicenseEntry W file) eqn:Hfile.
    + rewrite (bind_Ok _ _ _ _ _ (ReadFile_eq W _ gb)). rewrite IH.
      cbn [fst negb andb orb map rev modulesCache journal logged].
      rewrite last_cons, <- app_assoc. unfold licenseReads.
      by destruct (last (List.filter (isLicenseEntry W) rest)).
    + cbn [negb andb]. destruct (String.eqb (Name file) "go.mod") eqn:Hname.
      * rewrite IH. apply String.eqb_eq in Hname. rewrite Hname.
        cbn [orb]. unfold licenseReads.
        by destruct (existsb _ rest).
      * rewrite IH. done.
Qed.

(** Below the depth bound and on a cache miss, the turn of the loop is the
    call of the Content Resolver followed by the rest of the turn. *)
Lemma exploreModule_miss lenient W recurse modRoot depth maxDepth mod_ gb :
  depth <> maxDepth ->
  modulesCache gb !! moduleID mod_ = None ->
  exploreModule lenient W recurse modRoot depth maxDepth mod_ gb
  = (do extracted <- extractLicenseAndRequiredModules lenient W modRoot mod_ ;
     resolveWith lenient W recurse depth maxDepth mod_ extracted) gb.
Proof.
  intros Hdepth Hmiss. unfold exploreModule.
  apply Z.eqb_neq in Hdepth. rewrite Hdepth.
  unfold getModuleFromCache at 1. unfold bind at 1. by rewrite Hmiss.
Qed.

(** X16. The turn of the loop for a module that carries a replacement, is
    below the depth bound and whose key is not in the cache, when the
    directory of the replacement (its path joined to the root path of the
    parent manifest) can be listed: the builder lists this directory, reads
    every license file of the listing and then the go.mod of the directory
    (the empty name when the listing has none), downloads nothing, and goes
    on to the license step with the bytes of the last license file, and to
    the walk of the modules that the go.mod requires when it can be read
    and parsed. *)
Theorem replaced_module_resolved_locally lenient W recurse modRoot depth
  maxDepth mod_ replacedBy files gb :
  depth <> maxDepth ->
  modulesCache gb !! moduleID mod_ = None ->
  ReplacedBy mod_ = Some replacedBy ->
  let fullPath :=
    filepath_Join W (RootPath modRoot) (Version.Path replacedBy) in
  ioutil_ReadDir W fullPath = Got files ->
  let goMod := localManifest W fullPath files in
  exploreModule lenient W recurse modRoot depth maxDepth mod_ gb
  = resolveWith lenient W recurse depth maxDepth mod_
      (localChild W goMod, localLicense W fullPath files,
       match localChild W goMod with
       | Some child => loadModulesFromModFile child
       | None => []
       end)
      (mkGraphBuilder (modulesCache gb)
         (EvReadFile goMod
          :: licenseReads W fullPath files
          ++ EvReadDir fullPath :: journal gb)%list).
Proof.
  intros Hdepth Hmiss Hrep fullPath Hdir goMod.
  rewrite (exploreModule_miss _ _ _ _ _ _ _ _ Hdepth Hmiss).
  unfold bind at 1.
  rewrite (extract_replaced lenient W modRoot mod_ _ gb Hrep).
  fold fullPath. rewrite Hdir, scanLocalFiles_eq.
  cbn [fst snd]. fold (localManifest W fullPath files). fold goMod.
  fold (localLicense W fullPath files).
  rewrite getRequiredModulesFromFile_eq. cbn [fst].
  unfold localChild.
  destruct (snd (ioutil_ReadFile W goMod)); [done|].
  by destruct (modfile_Parse W (fst (ioutil_ReadFile W goMod))).
Qed.

Lemma replaced_module_resolved_locally_witness :
  let a := mkModule Demo.a (Some Demo.localA) None [] in
  let recurse := buildModulesDependencyGraph false Demo.world 1 in
  exploreModule false Demo.world recurse
    (Demo.rootOf [Demo.a] [(Demo.a, Demo.localA)]) 0 1 a newGraphBuilder
  = resolveWith false Demo.world recurse 0 1 a
      (Some (mkModRoot Demo.aFile "/src/a"), Demo.mit,
       [mkModule Demo.c None None []; mkModule Demo.b None None []])
      (mkGraphBuilder ∅
         [EvReadFile "/src/a/go.mod"; EvReadFile "/src/a/LICENSE";
          EvReadDir "/src/a"]).
Proof.
  exact (replaced_module_resolved_locally false Demo.world
           (buildModulesDependencyGraph false Demo.world 1)
           (Demo.rootOf [Demo.a] [(Demo.a, Demo.localA)]) 0 1
           (mkModule Demo.a (Some Demo.localA) None []) Demo.localA
           [mkFileInfo "LICENSE" false; mkFileInfo "go.mod" false;
            mkFileInfo "pkg" true] newGraphBuilder
           ltac:(lia) eq_refl eq_refl eq_refl).
Defined.

(** ** A module without manifest *)

(** A listing without an entry named go.mod leaves the manifest name as it
    is. *)
Lemma scanLocalFiles_no_manifest W fullPath files :
  Forall (fun file => Name file <> "go.mod") files ->
  forall licenseFile childGoModFilename gb,
  exists licenseFile' gb',
    scanLocalFiles W fullPath files licenseFile childGoModFilename gb
    = (Ok (licenseFile', childGoModFilename), gb').
Proof.
  induction 1 as [|file rest Hname _ IH];
    intros licenseFile childGoModFilename gb; [by eexists _, _|].
  cbn [scanLocalFiles].
  destruct (negb (IsDir file) && isLicenseFilename W ("/" +:+ Name file)).
  - rewrite (bind_Ok _ _ _ _ _ (ReadFile_eq W _ gb)). apply IH.
  - apply String.eqb_neq in Hname. rewrite Hname. apply IH.
Qed.

(** C4. A required module for which the Content Resolver finds no manifest
    does not end the build, in strict and in lenient mode alike. On the
    registry strategy, when [getRequiredModules] answers
    [ErrorGoModFileNotFound] (the license text having passed: it was found,
    or the mode is lenient), and on the local strategy, when the directory
    lists no go.mod, the Content Resolver returns without error, with no
    child manifest and no children. And whenever the Content Resolver
    returns no child manifest and the license gets its label, the module
    becomes a leaf with its License Record, is cached, and the loop goes on
    with the modules that remain. *)
Theorem manifest_not_found_tolerated lenient W fuel modRoot depth maxDepth
  mod_ rest gb :
  depth <> maxDepth ->
  modulesCache gb !! moduleID mod_ = None ->
  Dependencies mod_ = [] ->
  (forall moduleZip license,
     ReplacedBy mod_ = None ->
     downloadModule W (Version mod_) = Got moduleZip ->
     (extractLicense W (Version.String (Version mod_)) moduleZip = Val license
      \/ (lenient = true
          /\ extractLicense W (Version.String (Version mod_)) moduleZip
             = Fail ErrorLicenseNotFound
          /\ license = [])) ->
     getRequiredModules W (Version.Version (Version mod_)) moduleZip
     = Fail ErrorGoModFileNotFound ->
     extractLicenseAndRequiredModules lenient W modRoot mod_ gb
     = (Ok (None, license, []), logged (EvDownload (Version mod_)) gb))
  /\ (forall replacedBy files,
        ReplacedBy mod_ = Some replacedBy ->
        ioutil_ReadDir W
          (filepath_Join W (RootPath modRoot) (Version.Path replacedBy))
        = Got files ->
        Forall (fun file => Name file <> "go.mod") files ->
        snd (ioutil_ReadFile W "") <> None ->
        exists license gb1,
          extractLicenseAndRequiredModules lenient W modRoot mod_ gb
          = (Ok (None, license, []), gb1))
  /\ (forall license childModules gb1 classified gb2,
        extractLicenseAndRequiredModules lenient W modRoot mod_ gb
        = (Ok (None, license, childModules), gb1) ->
        classifyLicense lenient W mod_ license gb1 = (Ok classified, gb2) ->
        let leaf :=
          mkModule (Version mod_) (ReplacedBy mod_)
                   (Some (License.mk (snd classified) (fst classified))) [] in
        buildModulesDependencyGraph lenient W (S fuel) modRoot (mod_ :: rest)
          depth maxDepth gb
        = (do rest' <- buildModulesDependencyGraph lenient W (S fuel) modRoot
                         rest depth maxDepth ;
           ret (leaf :: rest')) (cached leaf gb2)).
Proof.
  intros Hdepth Hmiss Hdeps. split; [|split].
  - intros moduleZip license Hrep Hdl Hlic Hmod.
    rewrite (extract_downloaded _ _ _ _ _ _ Hrep Hdl).
    destruct Hlic as [-> | (-> & -> & ->)]; cbn;
      unfold extractRequired; by rewrite Hmod.
  - intros replacedBy files Hrep Hdir Hfiles Hempty.
    rewrite (extract_replaced lenient W modRoot mod_ _ gb Hrep), Hdir.
    destruct (scanLocalFiles_no_manifest W
                (filepath_Join W (RootPath modRoot) (Version.Path replacedBy))
                files Hfiles [] ""
                (logged (EvReadDir
                   (filepath_Join W (RootPath modRoot)
                      (Version.Path replacedBy))) gb))
      as (licenseFile & gb1 & ->).
    rewrite getRequiredModulesFromFile_eq. cbn [fst snd].
    destruct (snd (ioutil_ReadFile W "")); [|done]. by eexists _, _.
  - intros license childModules gb1 classified gb2 Hextract Hclassify leaf.
    cbn [buildModulesDependencyGraph]. apply forEach_cons.
    rewrite (exploreModule_leaf _ _ _ _ _ _ _ _ _ _ _ _ _
               Hdepth Hmiss Hextract Hclassify).
    by rewrite Hdeps.
Qed.

Lemma manifest_not_found_tolerated_witness :
  let modRoot := Demo.rootOf [Demo.c; Demo.b] [] in
  let c := mkModule Demo.c None None [] in
  let b := mkModule Demo.b None None [] in
  let leaf := mkModule Demo.c None (Some (License.mk Demo.mit "MIT")) [] in
  getRequiredModules Demo.world "v0.3.0" Demo.cZip = Fail ErrorGoModFileNotFound
  /\ buildModulesDependencyGraph false Demo.world 2 modRoot [c; b] 0 1
       newGraphBuilder
     = (do rest' <- buildModulesDependencyGraph false Demo.world 2 modRoot
                      [b] 0 1 ;
        ret (leaf :: rest'))
         (cached leaf (logged (EvDownload Demo.c) newGraphBuilder)).
Proof.
  intros modRoot c b leaf.
  assert (0 <> 1)%Z as Hdepth by lia.
  assert (getRequiredModules Demo.world "v0.3.0" Demo.cZip
          = Fail ErrorGoModFileNotFound) as Hmod by (vm_compute; reflexivity).
  assert (extractLicense Demo.world (Version.String Demo.c) Demo.cZip
          = Val Demo.mit) as Hlic by (vm_compute; reflexivity).
  assert (downloadModule Demo.world Demo.c = Got Demo.cZip) as Hdl
    by (vm_compute; reflexivity).
  destruct (manifest_not_found_tolerated false Demo.world 1 modRoot 0 1 c [b]
              newGraphBuilder Hdepth eq_refl eq_refl)
    as (Hremote & _ & Hloop).
  split; [exact Hmod|].
  apply (Hloop Demo.mit [] (logged (EvDownload Demo.c) newGraphBuilder)
           ("MIT", Demo.mit) (logged (EvDownload Demo.c) newGraphBuilder)).
  - exact (Hremote Demo.cZip Demo.mit eq_refl Hdl (or_introl Hlic) Hmod).
  - rewrite classifyLicense_strict. reflexivity.
Defined.

(** ** The code at the inputs where it leaves the specification *)

(** C3 (the code at the failing input). The module example.com/a is
    replaced by the directory /src/broken, whose go.mod is read and does not
    parse. In strict and in lenient mode the build succeeds all the same,
    with the module as a licensed leaf: the parse error is lost. *)
Theorem local_parse_failure_swallowed :
  let broken := Version.mk "../broken" "" in
  ioutil_ReadFile Demo.world "/src/broken/go.mod" = (Demo.brokenGoMod, None)
  /\ modfile_Parse Demo.world Demo.brokenGoMod = Failed "unknown directive"
  /\ forall lenient,
       Demo.run lenient (Demo.rootOf [Demo.a] [(Demo.a, broken)]) 2
       = Ok (mkTree
               (mkModule (Version.mk "example.com/root" "") None None
                  [mkModule Demo.a (Some broken)
                     (Some (License.mk Demo.mit "MIT")) []])).
Proof. split; [done|]. split; [done|]. by intros []; vm_compute. Qed.

(** C5 (the code at the failing input). In strict mode the module
    example.com/a, replaced by the directory /src/bare that holds no license
    file, does not end the build with [ErrorLicenseNotFound]: the Content
    Resolver returns no license bytes and no error, and the build ends with
    what the classifier says of the empty text. The module
    example.com/nolicense, fetched from the registry, does end the build
    with [ErrorLicenseNotFound]. *)
Theorem local_missing_license_strict :
  let bare := Version.mk "../bare" "" in
  fst (extractLicenseAndRequiredModules false Demo.world
         (Demo.rootOf [Demo.a] [(Demo.a, bare)])
         (mkModule Demo.a (Some bare) None []) newGraphBuilder)
  = Ok (Some (mkModRoot Demo.bareFile "/src/bare"), [], [])
  /\ Demo.run false (Demo.rootOf [Demo.a] [(Demo.a, bare)]) 2
     = Err (Errorf "cannot build modules tree"
              (External Classifier "license not recognized"))
  /\ Demo.run false (Demo.rootOf [Demo.nolicense] []) 2
     = Err (Errorf "cannot build modules tree" ErrorLicenseNotFound).
Proof. by vm_compute. Qed.

(** C7 (the code at the failing input). The archive of example.com/b at
    v1.2.0 names its entries example.com/b@v1.2.0/... The license is found
    after the lower-cased full identity is trimmed from the names; the
    manifest is looked for after the version alone is trimmed and is not
    found, although the archive has a go.mod, which the same search with
    the lower-cased full identity finds. The module is resolved as a leaf. *)
Theorem manifest_prefix_is_version_only :
  extractLicense Demo.world (Version.String Demo.b) Demo.bZip = Val Demo.apache
  /\ getRequiredModules Demo.world (Version.Version Demo.b) Demo.bZip
     = Fail ErrorGoModFileNotFound
  /\ getRequiredModules Demo.world
       (strings_ToLower Demo.world (Version.String Demo.b)) Demo.bZip
     = Val (mkModRoot Demo.bFile "", [mkModule Demo.c None None []])
  /\ fst (extractLicenseAndRequiredModules false Demo.world
            (Demo.rootOf [Demo.b] []) (mkModule Demo.b None None [])
            newGraphBuilder)
     = Ok (None, Demo.apache, []).
Proof. by vm_compute. Qed.

(** ** The Content Resolver and the license step: cache and budget *)

Lemma sameCache_refl gb : sameCache gb gb.
Proof. done. Qed.

Lemma sameCache_trans g1 g2 g3 :
  sameCache g1 g2 -> sameCache g2 g3 -> sameCache g1 g3.
Proof. unfold sameCache. congruence. Qed.

Lemma keeps_emit ev : keeps sameCache (emit ev).
Proof. by intros gb. Qed.

Lemma sameCache_bind {A B} (m : M A) (k : A -> M B) :
  keeps sameCache m -> (forall a, keeps sameCache (k a)) ->
  keeps sameCache (bind m k).
Proof. apply keeps_bind, sameCache_trans. Qed.

Lemma sameCache_ret {A} (a : A) : keeps sameCache (ret a).
Proof. apply keeps_ret, sameCache_refl. Qed.

Lemma sameCache_lift {A} (r : result A) : keeps sameCache (lift r).
Proof. apply keeps_lift, sameCache_refl. Qed.

Ltac keeps_step :=
  first
    [ apply sameCache_bind; [ | intros ? ]
    | apply sameCache_ret
    | apply sameCache_lift
    | apply keeps_emit ].

Ltac returns_step :=
  first
    [ apply returns_bind; [ | intros ? ]
    | apply returns_try
    | apply returns_ret
    | apply returns_throw
    | apply returns_lift
    | apply returns_emit ].

Lemma scanLocalFiles_keeps W fullPath files licenseFile childGoModFilename :
  keeps sameCache
    (scanLocalFiles W fullPath files licenseFile childGoModFilename).
Proof.
  intros gb.
  destruct (scanLocalFiles_spec W fullPath files licenseFile
              childGoModFilename gb) as (l & g & evs & -> & _).
  done.
Qed.

Lemma scanLocalFiles_returns W fullPath files licenseFile childGoModFilename :
  returns (scanLocalFiles W fullPath files licenseFile childGoModFilename).
Proof.
  intros gb.
  destruct (scanLocalFiles_spec W fullPath files licenseFile
              childGoModFilename gb) as (l & g & evs & -> & _).
  done.
Qed.

Lemma extractRequired_keeps W mod_ moduleZip license :
  keeps sameCache (extractRequired W mod_ moduleZip license).
Proof.
  unfold extractRequired.
  destruct (getRequiredModules W _ moduleZip) as [[mr req]|e];
    [|destruct (negb _)]; by intros gb.
Qed.

Lemma extractRequired_returns W mod_ moduleZip license :
  returns (extractRequired W mod_ moduleZip license).
Proof.
  unfold extractRequired.
  destruct (getRequiredModules W _ moduleZip) as [[mr req]|e];
    [|destruct (negb _)]; by intros gb.
Qed.

Lemma extract_keeps lenient W modRoot mod_ :
  keeps sameCache (extractLicenseAndRequiredModules lenient W modRoot mod_).
Proof.
  intros gb. destruct (ReplacedBy mod_) as [replacedBy|] eqn:Hrep.
  - rewrite (extract_replaced lenient W modRoot mod_ _ gb Hrep).
    destruct (ioutil_ReadDir W _) as [files|msg]; [|done].
    pose proof (scanLocalFiles_keeps W
                  (filepath_Join W (RootPath modRoot) (Version.Path replacedBy))
                  files [] "" (logged (EvReadDir
                     (filepath_Join W (RootPath modRoot)
                        (Version.Path replacedBy))) gb)) as Hscan.
    by destruct (scanLocalFiles W _ files [] "" _) as [[found|e|e| |] gb1].
  - destruct (downloadModule W (Version mod_)) as [moduleZip|msg] eqn:Hdl.
    + rewrite (extract_downloaded lenient W modRoot mod_ gb _ Hrep Hdl).
      destruct (extractLicense W _ moduleZip) as [license|e].
      * apply (extractRequired_keeps W mod_ moduleZip license
                 (logged (EvDownload (Version mod_)) gb)).
      * destruct (negb _); [done|].
        apply (extractRequired_keeps W mod_ moduleZip []
                 (logged (EvDownload (Version mod_)) gb)).
    + rewrite (extract_download_failed lenient W modRoot mod_ gb _ Hrep Hdl).
      by destruct lenient.
Qed.

Lemma extract_returns lenient W modRoot mod_ :
  returns (extractLicenseAndRequiredModules lenient W modRoot mod_).
Proof.
  intros gb. destruct (ReplacedBy mod_) as [replacedBy|] eqn:Hrep.
  - rewrite (extract_replaced lenient W modRoot mod_ _ gb Hrep).
    destruct (ioutil_ReadDir W _) as [files|msg]; [|done].
    pose proof (scanLocalFiles_returns W
                  (filepath_Join W (RootPath modRoot) (Version.Path replacedBy))
                  files [] "" (logged (EvReadDir
                     (filepath_Join W (RootPath modRoot)
                        (Version.Path replacedBy))) gb)) as Hscan.
    by destruct (scanLocalFiles W _ files [] "" _) as [[found|e|e| |] gb1].
  - destruct (downloadModule W (Version mod_)) as [moduleZip|msg] eqn:Hdl.
    + rewrite (extract_downloaded lenient W modRoot mod_ gb _ Hrep Hdl).
      destruct (extractLicense W _ moduleZip) as [license|e].
      * apply extractRequired_returns.
      * destruct (negb _); [done|]. apply extractRequired_returns.
    + rewrite (extract_download_failed lenient W modRoot mod_ gb _ Hrep Hdl).
      by destruct lenient.
Qed.

Lemma classifyLicense_keeps lenient W mod_ license :
  keeps sameCache (classifyLicense lenient W mod_ license).
Proof.
  unfold classifyLicense, Warningf.
  destruct (lenient && _); repeat keeps_step.
Qed.

Lemma classifyLicense_returns lenient W mod_ license :
  returns (classifyLicense lenient W mod_ license).
Proof.
  unfold classifyLicense, Warningf.
  destruct (lenient && _); repeat returns_step.
Qed.

(** ** Enough budget: the build returns *)

Lemma int_wrap_small (z : Z) :
  (- 2 ^ 63 <= z < 2 ^ 63)%Z -> int_wrap z = z.
Proof. intros H. unfold int_wrap. rewrite Z.mod_small; lia. Qed.

Lemma exploreModule_returns lenient W recurse modRoot depth maxDepth mod_ :
  (depth <> maxDepth ->
   forall childModRoot childModules,
     returns (recurse childModRoot childModules (int_wrap (depth + 1)) maxDepth)) ->
  returns (exploreModule lenient W recurse modRoot depth maxDepth mod_).
Proof.
  intros Hrec. unfold exploreModule.
  destruct (depth =? maxDepth)%Z eqn:Hdepth; [apply returns_ret|].
  apply Z.eqb_neq in Hdepth.
  apply returns_bind; [by intros gb|]. intros [cachedMod|]; [apply returns_ret|].
  apply returns_bind; [apply extract_returns|]. intros [[childModRoot license] childModules].
  apply returns_bind; [apply classifyLicense_returns|]. intros classified.
  apply returns_bind.
  - cbn [fst snd]. destruct childModRoot as [childModRoot|]; [|apply returns_ret].
    apply returns_bind; [by apply Hrec|]. intros ?. apply returns_ret.
  - intros built. apply returns_bind; [by intros gb|]. intros ?. apply returns_ret.
Qed.

(** With a budget above [maxDepth - depth] the walk from [depth] never
    stops for lack of budget. *)
Lemma buildModulesDependencyGraph_returns lenient W fuel :
  forall modRoot mods depth maxDepth,
    (- 2 ^ 63 <= depth <= maxDepth)%Z -> (maxDepth < 2 ^ 63)%Z ->
    (Z.to_nat (maxDepth - depth) < fuel)%nat ->
    returns (buildModulesDependencyGraph lenient W fuel modRoot mods
               depth maxDepth).
Proof.
  induction fuel as [|fuel IH]; intros modRoot mods depth maxDepth Hd Hmax Hfuel;
    [lia|].
  cbn [buildModulesDependencyGraph]. apply returns_forEach. intros mod_.
  apply exploreModule_returns. intros Hne childModRoot childModules.
  rewrite int_wrap_small by lia. apply IH; lia.
Qed.

(** X14. [buildGraph] with a budget above [maxDepth] returns: a tree, an
    error, a panic or the exit of the process. The walk nests at most
    [maxDepth + 1] calls, whatever the manifests. *)
Theorem buildGraph_returns lenient W fuel modRoot maxDepth :
  (0 <= maxDepth < 2 ^ 63)%Z -> (Z.to_nat maxDepth < fuel)%nat ->
  returns (buildGraph lenient W fuel modRoot maxDepth).
Proof.
  intros Hmax Hfuel. unfold buildGraph.
  apply returns_bind.
  - apply returns_try, buildModulesDependencyGraph_returns; lia.
  - intros [requiredModules|err]; [|apply returns_throw].
    destruct (modfile.ModuleMod (ModFile modRoot)); [apply returns_ret|].
    by intros gb.
Qed.

(** ** The manifest of the children *)

(** The manifest found in an archive is a parsed one, and the modules
    returned with it are the ones it requires. *)
Lemma getRequiredModules_parsed W moduleFullName zipfile modRoot modules :
  getRequiredModules W moduleFullName zipfile = Val (modRoot, modules) ->
  parsedBy W (ModFile modRoot) /\ modules = loadModulesFromModFile modRoot.
Proof.
  unfold getRequiredModules.
  destruct (answered Archive (zip_NewReader W zipfile)) as [files|e]; [|done].
  induction files as [|file rest IH]; [done|]. cbn [getRequiredModules_loop].
  destruct (String.eqb _ "/go.mod"); [|done].
  destruct (readZipFile _ _ file) as [data|e]; [|done].
  unfold getRequiredModulesFromBytes, answered.
  destruct (modfile_Parse W data) as [goMod|msg] eqn:Hparse; [|done].
  intros [= <- <-]. split; [by exists data | done].
Qed.

(** The child manifest the Content Resolver returns is a parsed one, and
    the child modules are the ones it requires. *)
Lemma extract_children lenient W modRoot mod_ gb child license childModules gb1 :
  extractLicenseAndRequiredModules lenient W modRoot mod_ gb
  = (Ok (Some child, license, childModules), gb1) ->
  parsedBy W (ModFile child) /\ childModules = loadModulesFromModFile child.
Proof.
  destruct (ReplacedBy mod_) as [replacedBy|] eqn:Hrep.
  - rewrite (extract_replaced lenient W modRoot mod_ _ gb Hrep).
    destruct (ioutil_ReadDir W _) as [files|msg]; [|done].
    destruct (scanLocalFiles W _ files [] "" _) as [[found|e|e| |] gb0];
      try done.
    rewrite getRequiredModulesFromFile_eq. cbn [fst].
    destruct (snd (ioutil_ReadFile W (snd found))); [done|].
    destruct (modfile_Parse W (fst (ioutil_ReadFile W (snd found))))
      as [goMod|msg] eqn:Hparse; [|done].
    intros [= <- <- <- <-]. split; [by eexists | done].
  - destruct (downloadModule W (Version mod_)) as [moduleZip|msg] eqn:Hdl.
    + rewrite (extract_downloaded lenient W modRoot mod_ gb _ Hrep Hdl).
      assert (forall lic,
                extractRequired W mod_ moduleZip lic
                  (logged (EvDownload (Version mod_)) gb)
                = (Ok (Some child, license, childModules), gb1) ->
                parsedBy W (ModFile child)
                /\ childModules = loadModulesFromModFile child) as Hreq.
      { intros lic. unfold extractRequired.
        destruct (getRequiredModules W _ moduleZip) as [[mr req]|e] eqn:Hmod.
        - intros [= <- <- <- <-]. by eapply getRequiredModules_parsed.
        - by destruct (negb _). }
      destruct (extractLicense W _ moduleZip) as [lic|e]; [apply Hreq|].
      destruct (negb _); [done | apply Hreq].
    + rewrite (extract_download_failed lenient W modRoot mod_ gb _ Hrep Hdl).
      by destruct lenient.
Qed.

(** ** The depth bound, in the graph *)

(** C2, as amended. A module resolved at depth [maxDepth - 1] whose
    manifest is found gets as children the modules this manifest requires,
    which are the modules met at depth [maxDepth]: they are all in the
    graph, in the order of the manifest, but as leaves with no License
    Record, and nothing is done for them (after the license step of their
    parent the builder only caches the parent). *)
Theorem depth_bound_leaves_unresolved lenient W fuel modRoot depth maxDepth
  mod_ gb child license childModules gb1 classified gb2 :
  (- 2 ^ 63 <= depth < 2 ^ 63 - 1)%Z ->
  (depth + 1 = maxDepth)%Z ->
  modulesCache gb !! moduleID mod_ = None ->
  extractLicenseAndRequiredModules lenient W modRoot mod_ gb
  = (Ok (Some child, license, childModules), gb1) ->
  classifyLicense lenient W mod_ license gb1 = (Ok classified, gb2) ->
  let node :=
    mkModule (Version mod_) (ReplacedBy mod_)
             (Some (License.mk (snd classified) (fst classified)))
             childModules in
  exploreModule lenient W (buildModulesDependencyGraph lenient W (S fuel))
    modRoot depth maxDepth mod_ gb
  = (Ok node, cached node gb2)
  /\ map Version childModules
     = map modfile.Mod (modfile.Requires (ModFile child))
  /\ Forall (fun m => License m = None /\ Dependencies m = []) childModules.
Proof.
  intros Hrange Hdepth Hmiss Hextract Hclassify node.
  destruct (extract_children _ _ _ _ _ _ _ _ _ Hextract) as [_ Hload].
  split; [|rewrite Hload; split;
           [apply loadModulesFromModFile_Version
           |apply loadModulesFromModFile_fresh]].
  unfold exploreModule.
  assert ((depth =? maxDepth)%Z = false) as -> by (apply Z.eqb_neq; lia).
  unfold getModuleFromCache at 1. unfold bind at 1. rewrite Hmiss.
  rewrite (bind_Ok _ _ _ _ _ Hextract). cbn [fst snd].
  rewrite (bind_Ok _ _ _ _ _ Hclassify).
  rewrite int_wrap_small by lia. rewrite Hdepth.
  unfold bind at 1. unfold bind at 1. by rewrite walk_at_bound.
Qed.

Lemma depth_bound_leaves_unresolved_witness :
  let a := mkModule Demo.a (Some Demo.localA) None [] in
  let children :=
    [mkModule Demo.c None None []; mkModule Demo.b None None []] in
  let node :=
    mkModule Demo.a (Some Demo.localA) (Some (License.mk Demo.mit "MIT"))
      children in
  fst (exploreModule false Demo.world
         (buildModulesDependencyGraph false Demo.world 1)
         (Demo.rootOf [Demo.a] [(Demo.a, Demo.localA)]) 0 1 a newGraphBuilder)
  = Ok node
  /\ Forall (fun m => License m = None /\ Dependencies m = []) children.
Proof.
  intros a children node.
  assert (- 2 ^ 63 <= 0 < 2 ^ 63 - 1)%Z as Hrange by lia.
  assert (exists gb1,
            extractLicenseAndRequiredModules false Demo.world
              (Demo.rootOf [Demo.a] [(Demo.a, Demo.localA)]) a newGraphBuilder
            = (Ok (Some (mkModRoot Demo.aFile "/src/a"), Demo.mit, children),
               gb1)) as [gb1 Hextract].
  { eexists. vm_compute. reflexivity. }
  assert (classifyLicense false Demo.world a Demo.mit gb1
          = (Ok ("MIT", Demo.mit), gb1)) as Hclassify.
  { rewrite classifyLicense_strict. reflexivity. }
  destruct (depth_bound_leaves_unresolved false Demo.world 0
              (Demo.rootOf [Demo.a] [(Demo.a, Demo.localA)]) 0 1 a
              newGraphBuilder _ _ _ gb1 _ gb1
              Hrange eq_refl eq_refl Hextract Hclassify) as (Hnode & _ & Hbare).
  split; [exact (f_equal fst Hnode) | exact Hbare].
Defined.

(** C2, as stated, fails: with [maxDepth = 1] the modules c and b, required
    by the locally replaced module a and found at depth 1, are in the graph
    without a License Record. *)
Lemma depth_bound_license_counterexample :
  Demo.run false (Demo.rootOf [Demo.a] [(Demo.a, Demo.localA)]) 1
  = Ok (mkTree
          (mkModule (Version.mk "example.com/root" "") None None
             [mkModule Demo.a (Some Demo.localA)
                (Some (License.mk Demo.mit "MIT"))
                [mkModule Demo.c None None [];
                 mkModule Demo.b None None []]])).
Proof. by vm_compute. Qed.

(** A loop that returns has run its body on every element, in order. *)
Lemma forEach_Ok {A} (body : A -> M A) (I : graphBuilder -> Prop)
  (P : A -> Prop) (Q : A -> A -> Prop) :
  (forall x gb x' gb',
     I gb -> P x -> body x gb = (Ok x', gb') -> Q x x' /\ I gb') ->
  forall l gb l' gb',
    I gb -> Forall P l -> forEach body l gb = (Ok l', gb') ->
    Forall2 Q l l' /\ I gb'.
Proof.
  intros Hbody. induction l as [|x l IH]; intros gb l' gb' HI HP.
  - intros [= <- <-]. by split.
  - apply Forall_cons in HP as [HPx HP]. cbn [forEach]. unfold bind at 1.
    destruct (body x gb) as [[x'|e|e| |] gb1] eqn:Hx; try done.
    destruct (Hbody _ _ _ _ HI HPx Hx) as [HQ HI1].
    unfold bind at 1.
    destruct (forEach body l gb1) as [[l1|e|e| |] gb2] eqn:Hl; try done.
    intros [= <- <-]. destruct (IH _ _ _ HI1 HP Hl) as [HQl HI2].
    split; [by constructor | done].
Qed.

(** ** The requirements of a manifest *)

Lemma replacementMap_lookup_acc replaces :
  forall (acc : gmap Version.t Version.t) v,
    fold_left (fun m r => <[modfile.Old r := modfile.New r]> m) replaces acc
      !! v
    = match find (fun r => bool_decide (modfile.Old r = v)) (rev replaces) with
      | Some r => Some (modfile.New r)
      | None => acc !! v
      end.
Proof.
  induction replaces as [|r replaces IH] using rev_ind; intros acc v; [done|].
  rewrite fold_left_app, rev_app_distr. cbn [fold_left rev app find].
  destruct (bool_decide_reflect (modfile.Old r = v)) as [-> | Hne].
  - by rewrite lookup_insert_eq.
  - rewrite lookup_insert_ne by done. apply IH.
Qed.

(** The replacement of a requirement: the [New] of the last [replace]
    whose [Old] is equal to it. *)
Lemma replacementMap_lookup replaces v :
  replacementMap replaces !! v
  = modfile.New
      <$> find (fun r => bool_decide (modfile.Old r = v)) (rev replaces).
Proof.
  unfold replacementMap. rewrite replacementMap_lookup_acc, lookup_empty.
  by destruct (find _ _).
Qed.

(** X1. [loadModulesFromModFile] makes one node per requirement, in the
    order of the manifest, without license and without children; the node
    of a requirement is replaced by the [New] of the last [replace] whose
    [Old] is equal to the requirement, path and version, and is not
    replaced when there is none. *)
Theorem loadModulesFromModFile_spec (modRoot : ModRoot) :
  loadModulesFromModFile modRoot
  = map (fun req =>
           mkModule (modfile.Mod req)
             (modfile.New
                <$> find (fun r => bool_decide (modfile.Old r = modfile.Mod req))
                      (rev (modfile.Replaces (ModFile modRoot))))
             None [])
        (modfile.Requires (ModFile modRoot)).
Proof.
  unfold loadModulesFromModFile. apply map_ext. intros req.
  by rewrite replacementMap_lookup.
Qed.

(** X2. A [replace] whose left side names no version never applies to a
    requirement that has a version: when every [replace] of the manifest
    is of that kind and every requirement has a version, no node is
    replaced. *)
Theorem versionless_replace_never_applies (modRoot : ModRoot) :
  Forall (fun r => Version.Version (modfile.Old r) = "")
         (modfile.Replaces (ModFile modRoot)) ->
  Forall (fun req => Version.Version (modfile.Mod req) <> "")
         (modfile.Requires (ModFile modRoot)) ->
  Forall (fun m => ReplacedBy m = None) (loadModulesFromModFile modRoot).
Proof.
  intros Hold Hreq. unfold loadModulesFromModFile.
  apply Forall_map. eapply Forall_impl; [exact Hreq|].
  intros req Hversion. cbn [ReplacedBy]. rewrite replacementMap_lookup.
  destruct (find _ _) as [r|] eqn:Hfind; [|done].
  apply find_some in Hfind as [Hin Heq].
  apply bool_decide_eq_true in Heq.
  rewrite <- in_rev in Hin. apply list_elem_of_In in Hin.
  rewrite Forall_forall in Hold. specialize (Hold r Hin).
  by rewrite Heq in Hold.
Qed.

Lemma versionless_replace_never_applies_witness :
  Forall (fun m => ReplacedBy m = None)
    (loadModulesFromModFile
       (Demo.rootOf [Demo.a; Demo.b]
          [(Version.mk "example.com/a" "", Demo.localA)])).
Proof.
  apply (versionless_replace_never_applies
           (Demo.rootOf [Demo.a; Demo.b]
              [(Version.mk "example.com/a" "", Demo.localA)])).
  - repeat constructor.
  - repeat constructor; discriminate.
Defined.

(** ** Keys and names *)

Lemma append_cons ch (s t : string) : String ch s +:+ t = String ch (s +:+ t).
Proof. done. Qed.

Lemma hasAt_append (s t : string) : hasAt (s +:+ t) = hasAt s || hasAt t.
Proof.
  induction s as [|ch s IH]; [done|].
  rewrite append_cons. cbn [hasAt]. rewrite IH. by rewrite orb_assoc.
Qed.

Lemma split_at_first (a b c d : string) :
  hasAt a = false -> hasAt c = false ->
  a +:+ "@" +:+ b = c +:+ "@" +:+ d -> a = c /\ b = d.
Proof.
  revert c. induction a as [|x a IH]; intros [|y c] Ha Hc Heq.
  - change (String "@" b = String "@" d) in Heq. by injection Heq as ->.
  - change (String "@" b = String y (c +:+ "@" +:+ d)) in Heq.
    injection Heq as <- _. by cbn in Hc.
  - change (String x (a +:+ "@" +:+ b) = String "@" d) in Heq.
    injection Heq as -> _. by cbn in Ha.
  - change (String x (a +:+ "@" +:+ b) = String y (c +:+ "@" +:+ d)) in Heq.
    injection Heq as -> Heq.
    cbn [hasAt] in Ha, Hc. apply orb_false_iff in Ha as [_ Ha].
    apply orb_false_iff in Hc as [_ Hc].
    destruct (IH c Ha Hc Heq) as [-> ->]. done.
Qed.

(** X3. Two nodes whose versions have no [@] and whose keys are equal have
    the same identity, path and version: for such versions the cache never
    mixes up two identities. *)
Theorem moduleID_identity (m1 m2 : Module) :
  hasAt (Version.Version (Version m1)) = false ->
  hasAt (Version.Version (Version m2)) = false ->
  moduleID m1 = moduleID m2 ->
  Version m1 = Version m2.
Proof.
  intros H1 H2. rewrite !moduleID_eq. intros Heq.
  destruct (split_at_first _ _ _ _ H1 H2 Heq) as [Hv Hp].
  destruct (Version m1), (Version m2). cbn in *. congruence.
Qed.

Lemma moduleID_identity_witness :
  moduleID (mkModule Demo.b None None [])
  <> moduleID (mkModule Demo.c (Some Demo.localA) None []).
Proof.
  intros Heq.
  pose proof (moduleID_identity (mkModule Demo.b None None [])
                (mkModule Demo.c (Some Demo.localA) None [])
                eq_refl eq_refl Heq) as Hsame.
  discriminate Hsame.
Defined.

(** ** Archives *)

Lemma HasPrefix_split (s pre : string) :
  HasPrefix s pre = true -> s = pre +:+ sliceFrom (String.length pre) s.
Proof.
  unfold HasPrefix. revert s.
  induction pre as [|x pre IH]; intros [|y s]; cbn [String.prefix]; try done.
  destruct (ascii_dec x y) as [-> | _]; [|done].
  intros H. rewrite append_cons. cbn [String.length sliceFrom].
  by rewrite <- (IH s H).
Qed.

(** Trimming a name that has an [@] by a prefix that has none never gives
    the name of the manifest. *)
Lemma TrimPrefix_not_manifest (name pre : string) :
  hasAt name = true -> hasAt pre = false ->
  String.eqb (TrimPrefix name pre) "/go.mod" = false.
Proof.
  intros Hname Hpre. apply String.eqb_neq. unfold TrimPrefix.
  destruct (HasPrefix name pre) eqn:Hprefix.
  - intros Htrim. apply HasPrefix_split in Hprefix.
    rewrite Htrim in Hprefix. rewrite Hprefix, hasAt_append, Hpre in Hname.
    by cbn in Hname.
  - intros ->. by cbn in Hname.
Qed.

(** X4. In an archive whose entry names all have an [@] (as the names
    [path@version/...] of a module archive have), the manifest is never
    found when the version of the module has no [@]: the search, made with
    the version alone as prefix, answers [ErrorGoModFileNotFound], and the
    Content Resolver, when it returns, returns no child manifest and no
    children: a module fetched from the registry is a leaf. *)
Theorem remote_manifest_never_found lenient W modRoot mod_ moduleZip files gb :
  ReplacedBy mod_ = None ->
  hasAt (Version.Version (Version mod_)) = false ->
  downloadModule W (Version mod_) = Got moduleZip ->
  zip_NewReader W moduleZip = Got files ->
  Forall (fun file => hasAt (zipName file) = true) files ->
  getRequiredModules W (Version.Version (Version mod_)) moduleZip
  = Fail ErrorGoModFileNotFound
  /\ forall extracted gb1,
       extractLicenseAndRequiredModules lenient W modRoot mod_ gb
       = (Ok extracted, gb1) ->
       fst (fst extracted) = None /\ snd extracted = [].
Proof.
  intros Hrep Hversion Hdl Hzip Hfiles.
  assert (getRequiredModules W (Version.Version (Version mod_)) moduleZip
          = Fail ErrorGoModFileNotFound) as Hmod.
  { unfold getRequiredModules. rewrite Hzip. cbn [answered]. clear Hzip.
    induction Hfiles as [|file rest Hname _ IH]; [done|].
    cbn [getRequiredModules_loop].
    by rewrite (TrimPrefix_not_manifest _ _ Hname Hversion). }
  split; [done|]. intros extracted gb1.
  rewrite (extract_downloaded lenient W modRoot mod_ gb _ Hrep Hdl).
  unfold extractRequired. rewrite Hmod. cbn [isErrorGoModFileNotFound negb].
  destruct (extractLicense W _ moduleZip) as [license|e].
  - by intros [= <- <-].
  - destruct (negb _); [done|]. by intros [= <- <-].
Qed.

Lemma remote_manifest_never_found_witness :
  getRequiredModules Demo.world (Version.Version Demo.b) Demo.bZip
  = Fail ErrorGoModFileNotFound.
Proof.
  refine (proj1 (remote_manifest_never_found false Demo.world
                   (Demo.rootOf [Demo.b] []) (mkModule Demo.b None None [])
                   Demo.bZip _ newGraphBuilder eq_refl eq_refl _ _ _)).
  - vm_compute. reflexivity.
  - vm_compute. reflexivity.
  - repeat constructor.
Defined.

Lemma readZipFile_not_sentinel openMsg readMsg file :
  readZipFile openMsg readMsg file <> Fail ErrorLicenseNotFound.
Proof. unfold readZipFile. by destruct (zipBody_ file). Qed.

(** X5. The search of the license in the listing of an archive answers
    [ErrorLicenseNotFound] exactly when no entry has a license name; when
    some entry has one, the first such entry decides: its content is the
    license, and when it cannot be opened or read the search fails with
    that error, whatever the later entries are. *)
Theorem extractLicense_first_match W moduleFullName files :
  (extractLicense_loop W moduleFullName files = Fail ErrorLicenseNotFound
   <-> Forall (fun file => isLicenseZipEntry W moduleFullName file = false)
              files)
  /\ forall before file after,
       files = (before ++ file :: after)%list ->
       Forall (fun file' => isLicenseZipEntry W moduleFullName file' = false)
              before ->
       isLicenseZipEntry W moduleFullName file = true ->
       extractLicense_loop W moduleFullName files
       = readZipFile "cannot open license file"
                     "cannot read license file content" file.
Proof.
  split.
  - induction files as [|file rest IH]; [by split|].
    cbn [extractLicense_loop]. rewrite Forall_cons.
    fold (isLicenseZipEntry W moduleFullName file).
    destruct (isLicenseZipEntry W moduleFullName file).
    + split; [|by intros [? _]].
      intros H. by apply readZipFile_not_sentinel in H.
    + rewrite IH. by split; [|intros [_ ?]].
  - intros before file after -> Hbefore Hfile.
    induction Hbefore as [|file' before Hfile' _ IH]; cbn [app extractLicense_loop].
    + fold (isLicenseZipEntry W moduleFullName file). by rewrite Hfile.
    + fold (isLicenseZipEntry W moduleFullName file'). by rewrite Hfile'.
Qed.

(** ** Directories *)

Lemma scanLocalFiles_no_license W fullPath files :
  Forall (fun file => isLicenseEntry W file = false) files ->
  forall licenseFile childGoModFilename gb,
  exists childGoModFilename',
    scanLocalFiles W fullPath files licenseFile childGoModFilename gb
    = (Ok (licenseFile, childGoModFilename'), gb).
Proof.
  induction 1 as [|file rest Hfile _ IH];
    intros licenseFile childGoModFilename gb; [by eexists|].
  cbn [scanLocalFiles]. fold (isLicenseEntry W file). rewrite Hfile.
  destruct (String.eqb (Name file) "go.mod"); apply IH.
Qed.

(** X6. In the directory of a replacement the last license file of the
    listing is the one returned (where in an archive the first one is):
    when no entry after [file] is a license file, the license bytes are
    what [ioutil.ReadFile] gives for [file], read error or not. When the
    listing has no license file, the license bytes stay as they were and
    nothing is read. *)
Theorem scanLocalFiles_last_license W fullPath files licenseFile
  childGoModFilename gb :
  (forall before file after,
     files = (before ++ file :: after)%list ->
     isLicenseEntry W file = true ->
     Forall (fun file' => isLicenseEntry W file' = false) after ->
     exists childGoModFilename' gb',
       scanLocalFiles W fullPath files licenseFile childGoModFilename gb
       = (Ok (fst (ioutil_ReadFile W (filepath_Join W fullPath (Name file))),
              childGoModFilename'), gb'))
  /\ (Forall (fun file => isLicenseEntry W file = false) files ->
      exists childGoModFilename',
        scanLocalFiles W fullPath files licenseFile childGoModFilename gb
        = (Ok (licenseFile, childGoModFilename'), gb)).
Proof.
  split; [|intros Hfiles; by apply scanLocalFiles_no_license].
  intros before file after -> Hfile Hafter.
  revert licenseFile childGoModFilename gb.
  induction before as [|file' before IH];
    intros licenseFile childGoModFilename gb; cbn [app scanLocalFiles].
  - fold (isLicenseEntry W file). rewrite Hfile.
    rewrite (bind_Ok _ _ _ _ _ (ReadFile_eq W _ gb)). cbn [fst].
    destruct (scanLocalFiles_no_license W fullPath after Hafter
                (fst (ioutil_ReadFile W (filepath_Join W fullPath (Name file))))
                childGoModFilename
                (logged (EvReadFile (filepath_Join W fullPath (Name file))) gb))
      as [gm ->].
    by eexists _, _.
  - destruct (negb (IsDir file') && isLicenseFilename W ("/" +:+ Name file')).
    + rewrite (bind_Ok _ _ _ _ _ (ReadFile_eq W _ gb)). apply IH.
    + destruct (String.eqb (Name file') "go.mod"); apply IH.
Qed.

Lemma extractLicense_first_match_witness :
  extractLicense_loop Demo.world (Version.String Demo.c)
    [mkZipFile "example.com/c@v0.3.0/COPYING" (Contents Demo.mit);
     mkZipFile "example.com/c@v0.3.0/c.go" (Contents (Demo.text "package c"))]
  = Val Demo.mit.
Proof.
  exact (proj2 (extractLicense_first_match Demo.world (Version.String Demo.c)
                  [mkZipFile "example.com/c@v0.3.0/COPYING" (Contents Demo.mit);
                   mkZipFile "example.com/c@v0.3.0/c.go"
                     (Contents (Demo.text "package c"))])
           [] (mkZipFile "example.com/c@v0.3.0/COPYING" (Contents Demo.mit))
           [mkZipFile "example.com/c@v0.3.0/c.go"
              (Contents (Demo.text "package c"))]
           eq_refl (List.Forall_nil _) eq_refl).
Defined.

Lemma scanLocalFiles_last_license_witness :
  exists childGoModFilename' gb',
    scanLocalFiles Demo.world "/src/a"
      [mkFileInfo "COPYING" false; mkFileInfo "LICENSE" false;
       mkFileInfo "go.mod" false] [] "" newGraphBuilder
    = (Ok (fst (ioutil_ReadFile Demo.world
                  (filepath_Join Demo.world "/src/a" "LICENSE")),
           childGoModFilename'), gb').
Proof.
  apply (proj1 (scanLocalFiles_last_license Demo.world "/src/a"
                  [mkFileInfo "COPYING" false; mkFileInfo "LICENSE" false;
                   mkFileInfo "go.mod" false] [] "" newGraphBuilder)
           [mkFileInfo "COPYING" false] (mkFileInfo "LICENSE" false)
           [mkFileInfo "go.mod" false]).
  - reflexivity.
  - vm_compute. reflexivity.
  - repeat constructor.
Defined.

(** ** The cache during a walk *)

Lemma keeps_forEach {A} (R : graphBuilder -> graphBuilder -> Prop)
  (body : A -> M A) (l : list A) :
  (forall gb, R gb gb) ->
  (forall g1 g2 g3, R g1 g2 -> R g2 g3 -> R g1 g3) ->
  (forall x, keeps R (body x)) -> keeps R (forEach body l).
Proof.
  intros Hrefl Htrans Hbody. induction l as [|x l IH]; cbn [forEach].
  - by apply keeps_ret.
  - apply keeps_bind; [done | apply Hbody |]. intros x'.
    apply keeps_bind; [done | apply IH |]. intros l'. by apply keeps_ret.
Qed.

Lemma cacheGrows_refl gb : cacheGrows gb gb.
Proof. unfold cacheGrows. reflexivity. Qed.

Lemma cacheGrows_trans g1 g2 g3 :
  cacheGrows g1 g2 -> cacheGrows g2 g3 -> cacheGrows g1 g3.
Proof. unfold cacheGrows. intros H12 H23. by etrans. Qed.

Lemma sameCache_grows gb gb' : sameCache gb gb' -> cacheGrows gb gb'.
Proof. unfold sameCache, cacheGrows. by intros ->. Qed.

Lemma exploreModule_grows lenient W recurse modRoot depth maxDepth mod_ :
  (forall childModRoot childModules depth',
     keeps cacheGrows (recurse childModRoot childModules depth' maxDepth)) ->
  keeps cacheGrows
    (exploreModule lenient W recurse modRoot depth maxDepth mod_).
Proof.
  intros Hrec gb. unfold exploreModule.
  destruct (depth =? maxDepth)%Z; [apply cacheGrows_refl|].
  unfold getModuleFromCache at 1. unfold bind at 1.
  destruct (modulesCache gb !! moduleID mod_) as [cachedMod|] eqn:Hmiss;
    [apply cacheGrows_refl|].
  unfold bind at 1.
  pose proof (sameCache_grows _ _ (extract_keeps lenient W modRoot mod_ gb))
    as Hgrow1.
  destruct (extractLicenseAndRequiredModules lenient W modRoot mod_ gb)
    as [[[[childModRoot license] childModules]|e|e| |] gb1]; try done.
  cbn [fst snd] in *. unfold bind at 1.
  pose proof (sameCache_grows _ _
                (classifyLicense_keeps lenient W mod_ license gb1)) as Hgrow2.
  pose proof (cacheGrows_trans _ _ _ Hgrow1 Hgrow2) as Hgrow.
  destruct (classifyLicense lenient W mod_ license gb1)
    as [[classified|e|e| |] gb2]; try done.
  cbn [snd] in *. clear Hgrow1 Hgrow2. unfold bind at 1.
  destruct childModRoot as [child|].
  - unfold bind at 1.
    pose proof (Hrec child childModules (int_wrap (depth + 1)) gb2) as Hgrow3.
    pose proof (cacheGrows_trans _ _ _ Hgrow Hgrow3) as Hgrow'.
    destruct (recurse child childModules (int_wrap (depth + 1)) maxDepth gb2)
      as [[childModules'|e|e| |] gb3]; try done.
    cbn [ret cacheModule bind snd modulesCache Version] in *.
    unfold cacheGrows. cbn [modulesCache].
    by apply insert_subseteq_r.
  - cbn [ret cacheModule bind snd modulesCache Version].
    unfold cacheGrows. cbn [modulesCache]. by apply insert_subseteq_r.
Qed.

Lemma walk_grows lenient W fuel :
  forall modRoot mods depth maxDepth,
    keeps cacheGrows
      (buildModulesDependencyGraph lenient W fuel modRoot mods depth maxDepth).
Proof.
  induction fuel as [|fuel IH]; intros modRoot mods depth maxDepth.
  - intros gb. apply cacheGrows_refl.
  - cbn [buildModulesDependencyGraph].
    apply keeps_forEach; [apply cacheGrows_refl | apply cacheGrows_trans |].
    intros mod_. apply exploreModule_grows. intros cr cm d. apply IH.
Qed.

(** X7. A walk never removes a node from the cache and never replaces a
    cached node: whatever the outcome, the cache after the walk has every
    entry of the cache before it. *)
Theorem walk_keeps_cached lenient W fuel modRoot mods depth maxDepth gb key
  cachedMod :
  modulesCache gb !! key = Some cachedMod ->
  modulesCache
    (snd (buildModulesDependencyGraph lenient W fuel modRoot mods depth
            maxDepth gb)) !! key
  = Some cachedMod.
Proof.
  intros Hlookup. by eapply lookup_weaken; [|apply walk_grows].
Qed.

Lemma walk_keeps_cached_witness :
  let resolved :=
    mkModule Demo.b (Some Demo.localA) (Some (License.mk Demo.mit "MIT")) [] in
  modulesCache
    (snd (buildModulesDependencyGraph false Demo.world 3
            (Demo.rootOf [Demo.a; Demo.b] [(Demo.a, Demo.localA)])
            [mkModule Demo.a (Some Demo.localA) None [];
             mkModule Demo.b None None []] 0 2
            (cached resolved newGraphBuilder)))
    !! "v1.2.0@example.com/b"
  = Some resolved.
Proof.
  intros resolved.
  apply (walk_keeps_cached false Demo.world 3
           (Demo.rootOf [Demo.a; Demo.b] [(Demo.a, Demo.localA)])
           [mkModule Demo.a (Some Demo.localA) None [];
            mkModule Demo.b None None []] 0 2
           (cached resolved newGraphBuilder) "v1.2.0@example.com/b" resolved).
  vm_compute. reflexivity.
Defined.

(** ** What a walk returns *)

Lemma exploreModule_same_identity lenient W recurse modRoot depth maxDepth
  mod_ gb mod' gb' :
  exploreModule lenient W recurse modRoot depth maxDepth mod_ gb
  = (Ok mod', gb') ->
  Version mod' = Version mod_ /\ ReplacedBy mod' = ReplacedBy mod_.
Proof.
  unfold exploreModule.
  destruct (depth =? maxDepth)%Z; [by intros [= <- <-]|].
  unfold getModuleFromCache at 1. unfold bind at 1.
  destruct (modulesCache gb !! moduleID mod_) as [cachedMod|];
    [by intros [= <- <-]|].
  unfold bind at 1.
  destruct (extractLicenseAndRequiredModules lenient W modRoot mod_ gb)
    as [[[[childModRoot license] childModules]|e|e| |] gb1]; try done.
  cbn [fst snd]. unfold bind at 1.
  destruct (classifyLicense lenient W mod_ license gb1)
    as [[classified|e|e| |] gb2]; try done.
  unfold bind at 1. destruct childModRoot as [child|].
  - unfold bind at 1.
    destruct (recurse child childModules (int_wrap (depth + 1)) maxDepth gb2)
      as [[childModules'|e|e| |] gb3]; try done.
    cbn [ret cacheModule bind]. by intros [= <- <-].
  - cbn [ret cacheModule bind]. by intros [= <- <-].
Qed.

Lemma walk_same_identity lenient W fuel modRoot mods depth maxDepth gb
  mods' gb' :
  buildModulesDependencyGraph lenient W fuel modRoot mods depth maxDepth gb
  = (Ok mods', gb') ->
  Forall2 (fun m m' =>
             Version m' = Version m /\ ReplacedBy m' = ReplacedBy m)
          mods mods'.
Proof.
  destruct fuel as [|fuel]; [done|]. cbn [buildModulesDependencyGraph].
  intros Hwalk.
  refine (proj1 (forEach_Ok _ (fun _ => True) (fun _ => True) _ _
                   mods gb mods' gb' I _ Hwalk)).
  - intros x gb0 x' gb1 _ _ Hx. split; [|done].
    by eapply exploreModule_same_identity.
  - by apply Forall_forall.
Qed.

(** X8. A walk that returns gives back the modules it was given, one node
    for each and in the same order, with the identity and the replacement
    they had: no module is dropped, added, moved or renamed. *)
Theorem walk_keeps_modules lenient W fuel modRoot mods depth maxDepth gb
  mods' gb' :
  buildModulesDependencyGraph lenient W fuel modRoot mods depth maxDepth gb
  = (Ok mods', gb') ->
  length mods' = length mods
  /\ map Version mods' = map Version mods
  /\ map ReplacedBy mods' = map ReplacedBy mods.
Proof.
  intros Hwalk. apply walk_same_identity in Hwalk.
  induction Hwalk as [|m m' l l' [Hv Hr] _ (Hlen & Hvs & Hrs)]; [done|].
  cbn. by rewrite Hlen, Hv, Hr, Hvs, Hrs.
Qed.

Lemma walk_keeps_modules_witness :
  exists mods' gb',
    buildModulesDependencyGraph true Demo.world 3
      (Demo.rootOf [Demo.gone; Demo.a] [(Demo.a, Demo.localA)])
      [mkModule Demo.gone None None [];
       mkModule Demo.a (Some Demo.localA) None []] 0 2 newGraphBuilder
    = (Ok mods', gb')
    /\ map Version mods' = [Demo.gone; Demo.a]
    /\ map ReplacedBy mods' = [None; Some Demo.localA].
Proof.
  destruct (buildModulesDependencyGraph true Demo.world 3
              (Demo.rootOf [Demo.gone; Demo.a] [(Demo.a, Demo.localA)])
              [mkModule Demo.gone None None [];
               mkModule Demo.a (Some Demo.localA) None []] 0 2 newGraphBuilder)
    as [[mods'|e|e| |] gb'] eqn:Hwalk;
    try (vm_compute in Hwalk; discriminate Hwalk).
  exists mods', gb'. split; [reflexivity|].
  exact (proj2 (walk_keeps_modules _ _ _ _ _ _ _ _ _ _ Hwalk)).
Defined.

Lemma exploreModule_cached lenient W recurse modRoot depth maxDepth mod_ gb
  mod' gb' :
  depth <> maxDepth ->
  exploreModule lenient W recurse modRoot depth maxDepth mod_ gb
  = (Ok mod', gb') ->
  isCached gb' mod'.
Proof.
  intros Hdepth. unfold exploreModule.
  apply Z.eqb_neq in Hdepth. rewrite Hdepth.
  unfold getModuleFromCache at 1. unfold bind at 1.
  destruct (modulesCache gb !! moduleID mod_) as [cachedMod|] eqn:Hlookup.
  { intros [= <- <-]. exists cachedMod. split; [|done].
    by rewrite (moduleID_ReplacedBy _ _ (ReplacedBy mod_) _ (License mod_) _
                  (Dependencies mod_)); destruct mod_. }
  unfold bind at 1.
  destruct (extractLicenseAndRequiredModules lenient W modRoot mod_ gb)
    as [[[[childModRoot license] childModules]|e|e| |] gb1]; try done.
  cbn [fst snd]. unfold bind at 1.
  destruct (classifyLicense lenient W mod_ license gb1)
    as [[classified|e|e| |] gb2]; try done.
  unfold bind at 1. destruct childModRoot as [child|].
  - unfold bind at 1.
    destruct (recurse child childModules (int_wrap (depth + 1)) maxDepth gb2)
      as [[childModules'|e|e| |] gb3]; try done.
    cbn [ret cacheModule bind]. intros [= <- <-].
    eexists. split; [apply lookup_insert_eq | done].
  - cbn [ret cacheModule bind]. intros [= <- <-].
    eexists. split; [apply lookup_insert_eq | done].
Qed.

Lemma isCached_grows gb gb' m : cacheGrows gb gb' -> isCached gb m -> isCached gb' m.
Proof.
  intros Hgrows (c & Hlookup & Hsame). exists c. split; [|done].
  by eapply lookup_weaken.
Qed.

Lemma walk_cached lenient W fuel modRoot mods depth maxDepth gb mods' gb' :
  depth <> maxDepth ->
  buildModulesDependencyGraph lenient W fuel modRoot mods depth maxDepth gb
  = (Ok mods', gb') ->
  Forall (isCached gb') mods'.
Proof.
  intros Hdepth. destruct fuel as [|fuel]; [done|].
  cbn [buildModulesDependencyGraph].
  revert gb mods' gb'. induction mods as [|x l IH]; intros gb mods' gb'.
  { by intros [= <- <-]. }
  cbn [forEach]. unfold bind at 1.
  destruct (exploreModule lenient W _ modRoot depth maxDepth x gb)
    as [[x'|e|e| |] gb1] eqn:Hx; try done.
  unfold bind at 1.
  pose proof (keeps_forEach cacheGrows
                (exploreModule lenient W
                   (buildModulesDependencyGraph lenient W fuel)
                   modRoot depth maxDepth) l
                cacheGrows_refl cacheGrows_trans) as Hgrows.
  specialize (Hgrows (fun mod_ =>
                exploreModule_grows lenient W _ modRoot depth maxDepth mod_
                  (fun cr cm d => walk_grows lenient W fuel cr cm d maxDepth))
                gb1).
  destruct (forEach _ l gb1) as [[l'|e|e| |] gb2] eqn:Hl; try done.
  intros [= <- <-]. constructor.
  - eapply isCached_grows; [exact Hgrows|].
    by eapply exploreModule_cached.
  - by eapply IH.
Qed.

Lemma exploreModule_hit lenient W recurse modRoot depth maxDepth mod_ gb m' :
  depth <> maxDepth ->
  Version m' = Version mod_ -> ReplacedBy m' = ReplacedBy mod_ ->
  isCached gb m' ->
  exploreModule lenient W recurse modRoot depth maxDepth mod_ gb = (Ok m', gb).
Proof.
  intros Hdepth Hv Hr (c & Hlookup & Hl & Hd). unfold exploreModule.
  apply Z.eqb_neq in Hdepth. rewrite Hdepth.
  unfold getModuleFromCache at 1. unfold bind at 1.
  assert (moduleID mod_ = moduleID m') as ->
    by (by rewrite !moduleID_eq, Hv).
  rewrite Hlookup. destruct m'. cbn in *. by subst.
Qed.

(** X9. After a walk below the depth bound that returns, every node it
    returned is in the cache under its key, with its license and its
    children; and a walk of the same modules from the builder it left,
    below any depth bound and under any manifest, returns the same nodes
    and leaves the builder as it is: no collaborator is called again and
    no warning is logged again. *)
Theorem walk_again_from_cache lenient W fuel modRoot mods depth maxDepth gb
  mods' gb' :
  depth <> maxDepth ->
  buildModulesDependencyGraph lenient W fuel modRoot mods depth maxDepth gb
  = (Ok mods', gb') ->
  Forall (isCached gb') mods'
  /\ forall fuel2 modRoot2 depth2 maxDepth2,
       depth2 <> maxDepth2 ->
       buildModulesDependencyGraph lenient W (S fuel2) modRoot2 mods depth2
         maxDepth2 gb'
       = (Ok mods', gb').
Proof.
  intros Hdepth Hwalk.
  pose proof (walk_cached _ _ _ _ _ _ _ _ _ _ Hdepth Hwalk) as Hcached.
  split; [done|]. intros fuel2 modRoot2 depth2 maxDepth2 Hdepth2.
  apply walk_same_identity in Hwalk. cbn [buildModulesDependencyGraph].
  induction Hwalk as [|m m' l l' [Hv Hr] _ IH]; [done|].
  apply Forall_cons in Hcached as [Hm' Hl'].
  cbn [forEach].
  rewrite (bind_Ok _ _ _ _ _
             (exploreModule_hit lenient W _ modRoot2 depth2 maxDepth2 m gb' m'
                Hdepth2 Hv Hr Hm')).
  by rewrite (bind_Ok _ _ _ _ _ (IH Hl')).
Qed.

Lemma walk_again_from_cache_witness :
  let modRoot := Demo.rootOf [Demo.a; Demo.b] [(Demo.a, Demo.localA)] in
  let mods :=
    [mkModule Demo.a (Some Demo.localA) None []; mkModule Demo.b None None []] in
  exists mods' gb',
    buildModulesDependencyGraph false Demo.world 3 modRoot mods 0 2
      newGraphBuilder
    = (Ok mods', gb')
    /\ buildModulesDependencyGraph false Demo.world 1 modRoot mods 1 2 gb'
       = (Ok mods', gb').
Proof.
  intros modRoot mods.
  destruct (buildModulesDependencyGraph false Demo.world 3 modRoot mods 0 2
              newGraphBuilder) as [[mods'|e|e| |] gb'] eqn:Hwalk;
    try (vm_compute in Hwalk; discriminate Hwalk).
  exists mods', gb'. split; [reflexivity|].
  assert (0 <> 2)%Z as Hdepth by lia.
  assert (1 <> 2)%Z as Hdepth2 by lia.
  exact (proj2 (walk_again_from_cache _ _ _ _ _ _ _ _ _ _ Hdepth Hwalk)
           0%nat modRoot 1%Z 2%Z Hdepth2).
Defined.

(** ** License records *)

Lemma exploreModule_licensed lenient W recurse modRoot depth maxDepth mod_ gb
  mod' gb' :
  (forall childModRoot childModules gb0 childModules' gb1,
     cacheLicensed gb0 ->
     recurse childModRoot childModules (int_wrap (depth + 1)) maxDepth gb0
     = (Ok childModules', gb1) ->
     cacheLicensed gb1) ->
  cacheLicensed gb ->
  exploreModule lenient W recurse modRoot depth maxDepth mod_ gb
  = (Ok mod', gb') ->
  (depth <> maxDepth -> is_Some (License mod')) /\ cacheLicensed gb'.
Proof.
  intros Hrec Hcache. unfold exploreModule.
  destruct (depth =? maxDepth)%Z eqn:Hdepth.
  { apply Z.eqb_eq in Hdepth. by intros [= <- <-]. }
  unfold getModuleFromCache at 1. unfold bind at 1.
  destruct (modulesCache gb !! moduleID mod_) as [cachedMod|] eqn:Hlookup.
  { intros [= <- <-]. split; [|done]. intros _. exact (Hcache _ _ Hlookup). }
  unfold bind at 1.
  pose proof (extract_keeps lenient W modRoot mod_ gb) as Hkeep1.
  destruct (extractLicenseAndRequiredModules lenient W modRoot mod_ gb)
    as [[[[childModRoot license] childModules]|e|e| |] gb1]; try done.
  cbn [fst snd] in *. unfold bind at 1.
  pose proof (classifyLicense_keeps lenient W mod_ license gb1) as Hkeep2.
  destruct (classifyLicense lenient W mod_ license gb1)
    as [[classified|e|e| |] gb2]; try done.
  cbn [snd] in Hkeep2.
  assert (cacheLicensed gb2) as Hcache2.
  { unfold cacheLicensed. rewrite Hkeep2, Hkeep1. exact Hcache. }
  unfold bind at 1. destruct childModRoot as [child|].
  - unfold bind at 1.
    destruct (recurse child childModules (int_wrap (depth + 1)) maxDepth gb2)
      as [[childModules'|e|e| |] gb3] eqn:Hwalk; try done.
    pose proof (Hrec _ _ _ _ _ Hcache2 Hwalk) as Hcache3.
    cbn [ret cacheModule bind]. intros [= <- <-].
    split; [by eexists|]. by apply map_Forall_insert_2; [eexists|].
  - cbn [ret cacheModule bind]. intros [= <- <-].
    split; [by eexists|]. by apply map_Forall_insert_2; [eexists|].
Qed.

Lemma walk_licensed lenient W fuel :
  forall modRoot mods depth maxDepth gb mods' gb',
    cacheLicensed gb ->
    buildModulesDependencyGraph lenient W fuel modRoot mods depth maxDepth gb
    = (Ok mods', gb') ->
    (depth <> maxDepth -> Forall (fun m => is_Some (License m)) mods')
    /\ cacheLicensed gb'.
Proof.
  induction fuel as [|fuel IH];
    intros modRoot mods depth maxDepth gb mods' gb' Hcache; [done|].
  cbn [buildModulesDependencyGraph]. intros Hwalk.
  destruct (forEach_Ok
              (exploreModule lenient W
                 (buildModulesDependencyGraph lenient W fuel)
                 modRoot depth maxDepth)
              cacheLicensed (fun _ => True)
              (fun _ m' => depth <> maxDepth -> is_Some (License m'))
              (fun x gb0 x' gb1 HI _ =>
                 exploreModule_licensed lenient W _ modRoot depth maxDepth
                   x gb0 x' gb1
                   (fun cr cm g0 cm' g1 Hc Hw =>
                      proj2 (IH cr cm _ maxDepth g0 cm' g1 Hc Hw)) HI)
              mods gb mods' gb' Hcache
              (proj2 (Forall_forall _ _) (fun _ _ => I)) Hwalk)
    as [Hall Hcache'].
  split; [|done]. intros Hdepth. clear -Hall Hdepth.
  induction Hall as [|m m' l l' Hm _ IHl]; constructor; auto.
Qed.

(** X10. A build that succeeds with a depth bound other than 0, from a
    builder whose cached nodes all have a License Record (a new builder
    is one), gives every direct requirement of the root a License Record. *)
Theorem build_licenses_requirements lenient W fuel modRoot maxDepth gb tree
  gb' :
  maxDepth <> 0%Z ->
  cacheLicensed gb ->
  buildGraph lenient W fuel modRoot maxDepth gb = (Ok tree, gb') ->
  Forall (fun m => is_Some (License m)) (Dependencies (Root tree))
  /\ cacheLicensed gb'.
Proof.
  intros Hdepth Hcache. unfold buildGraph, try. unfold bind at 1.
  destruct (buildModulesDependencyGraph lenient W fuel modRoot
              (loadModulesFromModFile modRoot) 0 maxDepth gb)
    as [[requiredModules|e|e| |] gb1] eqn:Hwalk; try done.
  destruct (walk_licensed lenient W fuel _ _ _ _ _ _ _ Hcache Hwalk)
    as [Hall Hcache1].
  destruct (modfile.ModuleMod (ModFile modRoot)) as [rootVersion|]; [|done].
  intros [= <- <-]. split; [|done]. apply Hall. congruence.
Qed.

Lemma build_licenses_requirements_witness :
  exists tree gb',
    buildGraph true Demo.world 2
      (Demo.rootOf [Demo.gone; Demo.nolicense] []) 1 newGraphBuilder
    = (Ok tree, gb')
    /\ Forall (fun m => is_Some (License m)) (Dependencies (Root tree)).
Proof.
  destruct (buildGraph true Demo.world 2
              (Demo.rootOf [Demo.gone; Demo.nolicense] []) 1 newGraphBuilder)
    as [[tree|e|e| |] gb'] eqn:Hbuild;
    try (vm_compute in Hbuild; discriminate Hbuild).
  exists tree, gb'. split; [reflexivity|].
  assert (1 <> 0)%Z as Hdepth by lia.
  exact (proj1 (build_licenses_requirements true Demo.world 2 _ 1
                  newGraphBuilder tree gb' Hdepth (map_Forall_empty _) Hbuild)).
Defined.

(** ** The errors of a build *)

Lemma fromArchive_mayReturn lenient e :
  fromArchive e = true -> mayReturn lenient e = true.
Proof. destruct e as [| |msg [| | |[] ?]|[] ?]; done. Qed.

Lemma readZipFile_errors openMsg readMsg file e :
  readZipFile openMsg readMsg file = Fail e -> fromArchive e = true.
Proof. unfold readZipFile. destruct (zipBody_ file); by intros [= <-]. Qed.

Lemma extractLicense_errors W moduleFullName zipfile e :
  extractLicense W moduleFullName zipfile = Fail e ->
  e = ErrorLicenseNotFound \/ fromArchive e = true.
Proof.
  unfold extractLicense.
  destruct (zip_NewReader W zipfile) as [files|msg]; cbn [answered].
  2:{ intros [= <-]. by right. }
  induction files as [|file rest IH]; cbn [extractLicense_loop].
  - intros [= <-]. by left.
  - destruct (isLicenseFilename W _); [|done].
    intros H. right. by eapply readZipFile_errors.
Qed.

Lemma getRequiredModules_errors W moduleFullName zipfile e :
  getRequiredModules W moduleFullName zipfile = Fail e ->
  e = ErrorGoModFileNotFound \/ fromArchive e = true
  \/ exists msg, e = External Parser msg.
Proof.
  unfold getRequiredModules.
  destruct (zip_NewReader W zipfile) as [files|msg]; cbn [answered].
  2:{ intros [= <-]. right. by left. }
  induction files as [|file rest IH]; cbn [getRequiredModules_loop].
  - intros [= <-]. by left.
  - destruct (String.eqb _ "/go.mod"); [|done].
    destruct (readZipFile _ _ file) as [data|e'] eqn:Hread.
    + unfold getRequiredModulesFromBytes.
      destruct (modfile_Parse W data) as [goMod|msg]; cbn [answered]; [done|].
      intros [= <-]. right. right. by eexists.
    + intros [= <-]. right. left. by eapply readZipFile_errors.
Qed.

Lemma extract_errors lenient W modRoot mod_ gb e :
  fst (extractLicenseAndRequiredModules lenient W modRoot mod_ gb) = Err e ->
  mayReturn lenient e = true.
Proof.
  destruct (ReplacedBy mod_) as [replacedBy|] eqn:Hrep.
  - rewrite (extract_replaced lenient W modRoot mod_ _ gb Hrep).
    destruct (ioutil_ReadDir W _) as [files|msg]; [|done].
    destruct (scanLocalFiles_spec W
                (filepath_Join W (RootPath modRoot) (Version.Path replacedBy))
                files [] ""
                (logged (EvReadDir
                   (filepath_Join W (RootPath modRoot)
                      (Version.Path replacedBy))) gb))
      as (l & g & evs & -> & _).
    done.
  - destruct (downloadModule W (Version mod_)) as [moduleZip|msg] eqn:Hdl.
    + rewrite (extract_downloaded lenient W modRoot mod_ gb _ Hrep Hdl).
      assert (forall license gb0,
                fst (extractRequired W mod_ moduleZip license gb0) = Err e ->
                mayReturn lenient e = true) as Hreq.
      { intros license gb0. unfold extractRequired.
        destruct (getRequiredModules W _ moduleZip) as [[mr req]|e'] eqn:Hmod;
          [done|].
        destruct (getRequiredModules_errors _ _ _ _ Hmod)
          as [-> | [Harchive | [msg ->]]]; cbn.
        - done.
        - assert (isErrorGoModFileNotFound e' = false) as ->
            by (by destruct e' as [| |? []|[]]).
          cbn. intros [= <-]. by apply fromArchive_mayReturn.
        - by intros [= <-]. }
      destruct (extractLicense W _ moduleZip) as [license|e'] eqn:Hlic;
        [apply Hreq|].
      destruct (extractLicense_errors _ _ _ _ Hlic) as [-> | Harchive].
      * cbn. destruct lenient; cbn; [apply Hreq | by intros [= <-]].
      * assert (isErrorLicenseNotFound e' = false) as ->
          by (by destruct e' as [| |? []|[]]).
        cbn. intros [= <-]. by apply fromArchive_mayReturn.
    + rewrite (extract_download_failed lenient W modRoot mod_ gb _ Hrep Hdl).
      destruct lenient; [done|]. by intros [= <-].
Qed.

Lemma classifyLicense_errors lenient W mod_ license gb e :
  fst (classifyLicense lenient W mod_ license gb) = Err e ->
  mayReturn lenient e = true.
Proof.
  unfold classifyLicense. destruct (lenient && _); [done|].
  unfold bind, lift, answered.
  destruct (detectLicense W license); [done|]. by intros [= <-].
Qed.

Lemma forEach_Err {A} (body : A -> M A) (l : list A) gb e :
  fst (forEach body l gb) = Err e ->
  exists x gb0, fst (body x gb0) = Err e.
Proof.
  revert gb. induction l as [|x l IH]; intros gb; [done|].
  cbn [forEach]. unfold bind at 1.
  destruct (body x gb) as [[x'|e'|e'| |] gb1] eqn:Hx; try done.
  - unfold bind at 1.
    destruct (forEach body l gb1) as [[l'|e'|e'| |] gb2] eqn:Hl; try done.
    intros [= <-]. apply (IH gb1). by rewrite Hl.
  - intros [= <-]. exists x, gb. by rewrite Hx.
Qed.

Lemma exploreModule_errors lenient W recurse modRoot depth maxDepth mod_ gb e :
  (forall childModRoot childModules gb0 e',
     fst (recurse childModRoot childModules (int_wrap (depth + 1)) maxDepth gb0)
     = Err e' ->
     mayReturn lenient e' = true) ->
  fst (exploreModule lenient W recurse modRoot depth maxDepth mod_ gb) = Err e ->
  mayReturn lenient e = true.
Proof.
  intros Hrec. unfold exploreModule.
  destruct (depth =? maxDepth)%Z; [done|].
  unfold getModuleFromCache at 1. unfold bind at 1.
  destruct (modulesCache gb !! moduleID mod_) as [cachedMod|]; [done|].
  unfold bind at 1.
  pose proof (extract_errors lenient W modRoot mod_ gb) as Hextract.
  destruct (extractLicenseAndRequiredModules lenient W modRoot mod_ gb)
    as [[[[childModRoot license] childModules]|e'|e'| |] gb1]; try done.
  2:{ intros [= <-]. by apply Hextract. }
  cbn [fst snd]. unfold bind at 1.
  pose proof (classifyLicense_errors lenient W mod_ license gb1) as Hclassify.
  destruct (classifyLicense lenient W mod_ license gb1)
    as [[classified|e'|e'| |] gb2]; try done.
  2:{ intros [= <-]. by apply Hclassify. }
  unfold bind at 1. destruct childModRoot as [child|]; [|done].
  unfold bind at 1.
  pose proof (Hrec child childModules gb2) as Hwalk.
  destruct (recurse child childModules (int_wrap (depth + 1)) maxDepth gb2)
    as [[childModules'|e'|e'| |] gb3]; try done.
  intros [= <-]. by apply Hwalk.
Qed.

Lemma walk_errors lenient W fuel :
  forall modRoot mods depth maxDepth gb e,
    fst (buildModulesDependencyGraph lenient W fuel modRoot mods depth
           maxDepth gb) = Err e ->
    mayReturn lenient e = true.
Proof.
  induction fuel as [|fuel IH]; intros modRoot mods depth maxDepth gb e;
    [done|].
  cbn [buildModulesDependencyGraph]. intros Hwalk.
  apply forEach_Err in Hwalk as (x & gb0 & Hx).
  eapply exploreModule_errors; [|exact Hx].
  intros cr cm g0 e'. apply IH.
Qed.

(** X11. The error of a build that fails is a wrapped error,
    [cannot build modules tree: ...], and the error it wraps is never
    [ErrorGoModFileNotFound] and never an error of the file system; it is
    [ErrorLicenseNotFound] or a download error in strict mode only;
    otherwise it is what the archive reader, the manifest parser or the
    license classifier answered. *)
Theorem build_errors lenient W fuel modRoot maxDepth gb e :
  fst (buildGraph lenient W fuel modRoot maxDepth gb) = Err e ->
  exists cause,
    e = Errorf "cannot build modules tree" cause
    /\ Error e = "cannot build modules tree: " +:+ Error cause
    /\ mayReturn lenient cause = true.
Proof.
  unfold buildGraph, try. unfold bind at 1.
  pose proof (walk_errors lenient W fuel modRoot
                (loadModulesFromModFile modRoot) 0 maxDepth gb) as Hwalk.
  destruct (buildModulesDependencyGraph lenient W fuel modRoot
              (loadModulesFromModFile modRoot) 0 maxDepth gb)
    as [[requiredModules|cause|e'| |] gb1]; try done.
  - by destruct (modfile.ModuleMod (ModFile modRoot)).
  - intros [= <-]. exists cause. split; [done|]. split; [done|]. by apply Hwalk.
Qed.

Lemma build_errors_witness :
  exists cause,
    Errorf "cannot build modules tree" ErrorLicenseNotFound
    = Errorf "cannot build modules tree" cause
    /\ Error (Errorf "cannot build modules tree" ErrorLicenseNotFound)
       = "cannot build modules tree: " +:+ Error cause
    /\ mayReturn false cause = true.
Proof.
  apply (build_errors false Demo.world 3 (Demo.rootOf [Demo.nolicense] []) 2
           newGraphBuilder).
  vm_compute. reflexivity.
Defined.

Lemma buildGraph_returns_witness :
  fst (buildGraph false Demo.world 3
         (Demo.rootOf [Demo.a; Demo.b] [(Demo.a, Demo.localA)]) 2
         newGraphBuilder)
  <> OutOfFuel.
Proof.
  apply (buildGraph_returns false Demo.world 3
           (Demo.rootOf [Demo.a; Demo.b] [(Demo.a, Demo.localA)]) 2).
  - lia.
  - vm_compute. lia.
Defined.

(** ** The tree as text *)

Lemma Module_nested_ind (P : Module -> Prop) :
  (forall version replacedBy license dependencies,
     Forall P dependencies ->
     P (mkModule version replacedBy license dependencies)) ->
  forall m, P m.
Proof.
  intros Hnode. fix IH 1. intros [version replacedBy license dependencies].
  apply Hnode. induction dependencies as [|d dependencies IHd]; constructor.
  - apply IH.
  - apply IHd.
Qed.

Lemma eachBranch_is_Some (branchOf : Module -> option Branch) modules :
  Forall (fun m => is_Some (branchOf m) <-> allLicensed m = true) modules ->
  is_Some (eachBranch branchOf modules) <-> forallb allLicensed modules = true.
Proof.
  induction 1 as [|m rest Hm _ IH]; cbn [eachBranch forallb].
  - split; [done | by eexists].
  - rewrite andb_true_iff, <- Hm, <- IH.
    destruct (branchOf m) as [child|].
    + destruct (eachBranch branchOf rest) as [children|].
      * split; [by split; eexists | by eexists].
      * split; [by intros [? ?] | by intros [_ [? ?]]].
    + split; [by intros [? ?] | by intros [[? ?] _]].
Qed.

Lemma addChildNode_is_Some m :
  is_Some (addChildNode m) <-> allLicensed m = true.
Proof.
  induction m as [version replacedBy license dependencies IH]
    using Module_nested_ind.
  cbn [addChildNode allLicensed]. destruct license as [l|].
  - rewrite <- (eachBranch_is_Some addChildNode dependencies IH).
    destruct (eachBranch addChildNode dependencies).
    + split; by eexists.
    + split; by intros [? ?].
  - split; [by intros [? ?] | done].
Qed.

Lemma eachBranch_Values (branchOf : Module -> option Branch)
  (label : Module -> string) modules :
  (forall m b, branchOf m = Some b -> Value b = label m) ->
  forall branches,
    eachBranch branchOf modules = Some branches ->
    map Value branches = map label modules.
Proof.
  intros Hlabel. induction modules as [|m rest IH]; intros branches.
  - by intros [= <-].
  - cbn [eachBranch].
    destruct (branchOf m) as [child|] eqn:Hm; [|done].
    destruct (eachBranch branchOf rest) as [children|]; [|done].
    intros [= <-]. cbn. by rewrite (Hlabel _ _ Hm), (IH children).
Qed.

Lemma Tree_String_None (render : Branch -> string) (tree : Tree) :
  Tree_String render tree = None
  <-> forallb allLicensed (Dependencies (Root tree)) = false.
Proof.
  unfold Tree_String, addChildNodes.
  pose proof (eachBranch_is_Some addChildNode (Dependencies (Root tree))
                (proj2 (Forall_forall _ _)
                   (fun m _ => addChildNode_is_Some m))) as Hsome.
  destruct (eachBranch addChildNode (Dependencies (Root tree)))
    as [children|].
  - split; [done|]. intros Hfalse.
    assert (forallb allLicensed (Dependencies (Root tree)) = true) as Htrue
      by (apply Hsome; by eexists).
    congruence.
  - split; [|done]. intros _.
    destruct (forallb allLicensed (Dependencies (Root tree))); [|done].
    by destruct (proj2 Hsome eq_refl).
Qed.

(** X12. [Tree.String] panics exactly when some node below the root has
    no License Record (the root itself needs none). When it returns, the
    text is the rendering of a tree whose value is the path of the root
    module and whose branches are those of the direct requirements, one
    for each and in their order, labelled with identity and license
    label. *)
Theorem Tree_String_panics_iff (render : Branch -> string) (tree : Tree) :
  (Tree_String render tree = None
   <-> forallb allLicensed (Dependencies (Root tree)) = false)
  /\ forall text,
       Tree_String render tree = Some text ->
       exists branches,
         text
         = render (mkBranch (Version.Path (Version (Root tree))) branches)
         /\ map Value branches
            = map branchLabel (Dependencies (Root tree)).
Proof.
  split; [apply Tree_String_None|].
  unfold Tree_String, addChildNodes. intros text.
  destruct (eachBranch addChildNode (Dependencies (Root tree)))
    as [children|] eqn:Hchildren; [|done].
  intros [= <-]. exists children. split; [done|].
  apply (eachBranch_Values addChildNode branchLabel _) in Hchildren; [done|].
  intros [version replacedBy [l|] dependencies] b; cbn [addChildNode]; [|done].
  destruct (eachBranch addChildNode dependencies); [|done].
  by intros [= <-].
Qed.

Lemma Tree_String_panics_iff_witness :
  Tree_String (fun b => Value b)
    (mkTree
       (mkModule (Version.mk "example.com/root" "") None None
          [mkModule Demo.a (Some Demo.localA)
             (Some (License.mk Demo.mit "MIT"))
             [mkModule Demo.c None None []]]))
  = None.
Proof.
  apply (proj1 (Tree_String_panics_iff (fun b => Value b) _)).
  reflexivity.
Defined.

(** X13. With the depth bound 0 a build of a manifest that has a module
    directive and at least one requirement succeeds without doing
    anything, and printing the tree it returns panics: the requirements
    are in the tree without License Record. *)
Theorem depth_zero_tree_cannot_be_printed lenient W fuel modRoot gb render
  rootVersion :
  modfile.ModuleMod (ModFile modRoot) = Some rootVersion ->
  modfile.Requires (ModFile modRoot) <> [] ->
  exists tree,
    buildGraph lenient W (S fuel) modRoot 0 gb = (Ok tree, gb)
    /\ Tree_String render tree = None.
Proof.
  intros Hroot Hrequires.
  exists (mkTree (mkModule rootVersion None None
                    (loadModulesFromModFile modRoot))).
  split.
  - unfold buildGraph, try. unfold bind at 1.
    by rewrite walk_at_bound, Hroot.
  - apply Tree_String_None.
    cbn [Root Dependencies]. unfold loadModulesFromModFile.
    destruct (modfile.Requires (ModFile modRoot)) as [|req rest]; done.
Qed.

Lemma depth_zero_tree_cannot_be_printed_witness :
  exists tree,
    buildGraph false Demo.world 1
      (Demo.rootOf [Demo.b] []) 0 newGraphBuilder
    = (Ok tree, newGraphBuilder)
    /\ Tree_String (fun b => Value b) tree = None.
Proof.
  apply (depth_zero_tree_cannot_be_printed false Demo.world 0
           (Demo.rootOf [Demo.b] []) newGraphBuilder (fun b => Value b)
           (Version.mk "example.com/root" "")).
  - reflexivity.
  - discriminate.
Defined.

(** ** Exits and panics *)

Lemma extract_tame lenient W modRoot mod_ gb :
  tame (fst (extractLicenseAndRequiredModules lenient W modRoot mod_ gb)).
Proof.
  destruct (ReplacedBy mod_) as [replacedBy|] eqn:Hrep.
  - rewrite (extract_replaced lenient W modRoot mod_ _ gb Hrep).
    destruct (ioutil_ReadDir W _) as [files|msg]; [|done].
    destruct (scanLocalFiles_spec W
                (filepath_Join W (RootPath modRoot) (Version.Path replacedBy))
                files [] ""
                (logged (EvReadDir
                   (filepath_Join W (RootPath modRoot)
                      (Version.Path replacedBy))) gb))
      as (l & g & evs & -> & _).
    done.
  - destruct (downloadModule W (Version mod_)) as [moduleZip|msg] eqn:Hdl.
    + rewrite (extract_downloaded lenient W modRoot mod_ gb _ Hrep Hdl).
      assert (forall license gb0,
                tame (fst (extractRequired W mod_ moduleZip license gb0)))
        as Hreq.
      { intros license gb0. unfold extractRequired.
        destruct (getRequiredModules W _ moduleZip) as [[mr req]|e]; [done|].
        by destruct (negb _). }
      destruct (extractLicense W _ moduleZip) as [license|e]; [apply Hreq|].
      destruct (negb _); [done | apply Hreq].
    + rewrite (extract_download_failed lenient W modRoot mod_ gb _ Hrep Hdl).
      by destruct lenient.
Qed.

Lemma classifyLicense_tame lenient W mod_ license gb :
  tame (fst (classifyLicense lenient W mod_ license gb)).
Proof.
  unfold classifyLicense. destruct (lenient && _); [done|].
  unfold bind, lift, answered. by destruct (detectLicense W license).
Qed.

Lemma forEach_tame {A} (body : A -> M A) (l : list A) :
  (forall x gb, tame (fst (body x gb))) ->
  forall gb, tame (fst (forEach body l gb)).
Proof.
  intros Hbody. induction l as [|x l IH]; intros gb; [done|].
  cbn [forEach]. unfold bind at 1. specialize (Hbody x gb).
  destruct (body x gb) as [[x'|e|e| |] gb1]; try done.
  unfold bind at 1. specialize (IH gb1).
  by destruct (forEach body l gb1) as [[l'|e|e| |] gb2].
Qed.

Lemma exploreModule_tame lenient W recurse modRoot depth maxDepth mod_ gb :
  (forall childModRoot childModules gb0,
     tame (fst (recurse childModRoot childModules (int_wrap (depth + 1))
                  maxDepth gb0))) ->
  tame (fst (exploreModule lenient W recurse modRoot depth maxDepth mod_ gb)).
Proof.
  intros Hrec. unfold exploreModule.
  destruct (depth =? maxDepth)%Z; [done|].
  unfold getModuleFromCache at 1. unfold bind at 1.
  destruct (modulesCache gb !! moduleID mod_) as [cachedMod|]; [done|].
  unfold bind at 1.
  pose proof (extract_tame lenient W modRoot mod_ gb) as Hextract.
  destruct (extractLicenseAndRequiredModules lenient W modRoot mod_ gb)
    as [[[[childModRoot license] childModules]|e|e| |] gb1]; try done.
  cbn [fst snd]. unfold bind at 1.
  pose proof (classifyLicense_tame lenient W mod_ license gb1) as Hclassify.
  destruct (classifyLicense lenient W mod_ license gb1)
    as [[classified|e|e| |] gb2]; try done.
  unfold bind at 1. destruct childModRoot as [child|]; [|done].
  unfold bind at 1. specialize (Hrec child childModules gb2).
  by destruct (recurse child childModules (int_wrap (depth + 1)) maxDepth gb2)
    as [[childModules'|e|e| |] gb3].
Qed.

Lemma walk_tame lenient W fuel :
  forall modRoot mods depth maxDepth gb,
    tame (fst (buildModulesDependencyGraph lenient W fuel modRoot mods depth
                 maxDepth gb)).
Proof.
  induction fuel as [|fuel IH]; intros modRoot mods depth maxDepth gb; [done|].
  cbn [buildModulesDependencyGraph]. apply forEach_tame.
  intros x gb0. apply exploreModule_tame. intros cr cm g0. apply IH.
Qed.

(** X15. A build exits the process only with an error of the file system
    (the listing of a replacement directory that failed), and it panics
    only when the root manifest has no module directive, after its walk
    has returned without error. *)
Theorem build_exits_and_panics lenient W fuel modRoot maxDepth gb :
  (forall e,
     fst (buildGraph lenient W fuel modRoot maxDepth gb) = Exit e ->
     exists msg, e = External FileSystem msg)
  /\ (fst (buildGraph lenient W fuel modRoot maxDepth gb) = Panic ->
      modfile.ModuleMod (ModFile modRoot) = None
      /\ exists requiredModules,
           fst (buildModulesDependencyGraph lenient W fuel modRoot
                  (loadModulesFromModFile modRoot) 0 maxDepth gb)
           = Ok requiredModules).
Proof.
  unfold buildGraph, try. unfold bind at 1. unfold bind at 1.
  pose proof (walk_tame lenient W fuel modRoot
                (loadModulesFromModFile modRoot) 0 maxDepth gb) as Hwalk.
  destruct (buildModulesDependencyGraph lenient W fuel modRoot
              (loadModulesFromModFile modRoot) 0 maxDepth gb)
    as [[requiredModules|e'|e'| |] gb1]; cbn [fst] in *; try done.
  - destruct (modfile.ModuleMod (ModFile modRoot)); split; try done.
    intros _. split; [done | by eexists].
  - split; [|done]. intros e [= <-].
    destruct e' as [| | |[] msg]; try done. by eexists.
Qed.

Lemma build_exits_and_panics_witness :
  modfile.ModuleMod
    (modfile.mkFile None [modfile.mkRequire Demo.c] [])
  = None
  /\ exists requiredModules,
       fst (buildModulesDependencyGraph false Demo.world 2
              (mkModRoot (modfile.mkFile None [modfile.mkRequire Demo.c] [])
                 "/src/root")
              (loadModulesFromModFile
                 (mkModRoot (modfile.mkFile None [modfile.mkRequire Demo.c] [])
                    "/src/root")) 0 1 newGraphBuilder)
       = Ok requiredModules.
Proof.
  apply (proj2 (build_exits_and_panics false Demo.world 2
                  (mkModRoot
                     (modfile.mkFile None [modfile.mkRequire Demo.c] [])
                     "/src/root") 1 newGraphBuilder)).
  vm_compute. reflexivity.
Defined.

(** ** The order of the children *)





Section Order.

Variable lenient : bool.
Variable W : World.



End Order.



(** X18. The node of a module that the builder resolves (below the depth
    bound, its key not in the cache) keeps its identity and its
    replacement; when the Content Resolver returns a manifest for it, its
    children are, one for one and in the declared order, the modules this
    manifest requires, each with the replacement this manifest gives it;
    when the Content Resolver returns no manifest, its children are left as
    they were. *)
Theorem resolved_node_children lenient W fuel modRoot depth maxDepth mod_ gb
  childModRoot license childModules gb1 mod' gb' :
  depth <> maxDepth ->
  modulesCache gb !! moduleID mod_ = None ->
  extractLicenseAndRequiredModules lenient W modRoot mod_ gb
  = (Ok (childModRoot, license, childModules), gb1) ->
  exploreModule lenient W (buildModulesDependencyGraph lenient W fuel)
    modRoot depth maxDepth mod_ gb
  = (Ok mod', gb') ->
  Version mod' = Version mod_
  /\ ReplacedBy mod' = ReplacedBy mod_
  /\ match childModRoot with
     | Some child =>
         Forall2 (fun m m' =>
                    Version m' = Version m /\ ReplacedBy m' = ReplacedBy m)
                 (loadModulesFromModFile child) (Dependencies mod')
         /\ inDeclaredOrder (ModFile child) (Dependencies mod')
     | None => Dependencies mod' = Dependencies mod_
     end.
Proof.
  intros Hdepth Hmiss Hextract Hturn.
  destruct (exploreModule_same_identity _ _ _ _ _ _ _ _ _ _ Hturn)
    as [Hversion Hreplaced].
  split; [done|]. split; [done|].
  rewrite (exploreModule_miss _ _ _ _ _ _ _ _ Hdepth Hmiss) in Hturn.
  rewrite (bind_Ok _ _ _ _ _ Hextract) in Hturn.
  unfold resolveWith in Hturn. cbn [fst snd] in Hturn.
  unfold bind at 1 in Hturn.
  destruct (classifyLicense lenient W mod_ license gb1)
    as [[classified|e|e| |] gb2]; try done.
  unfold bind at 1 in Hturn.
  destruct childModRoot as [child|].
  - destruct (extract_children _ _ _ _ _ _ _ _ _ Hextract) as [_ ->].
    unfold bind at 1 in Hturn.
    destruct (buildModulesDependencyGraph lenient W fuel child
                (loadModulesFromModFile child) (int_wrap (depth + 1))
                maxDepth gb2)
      as [[childModules'|e|e| |] gb3] eqn:Hwalk; try done.
    cbn [ret cacheModule bind] in Hturn. injection Hturn as <- <-.
    cbn [Dependencies].
    pose proof (walk_same_identity _ _ _ _ _ _ _ _ _ _ Hwalk) as Hsame.
    split; [done|]. unfold inDeclaredOrder.
    rewrite <- loadModulesFromModFile_Version.
    clear -Hsame. induction Hsame as [|m m' l l' [Hv _] _ IHl]; [done|].
    cbn. by rewrite Hv, IHl.
  - cbn [ret cacheModule bind] in Hturn. by injection Hturn as <- <-.
Qed.

Lemma resolved_node_children_witness :
  let a := mkModule Demo.a (Some Demo.localA) None [] in
  let modRoot := Demo.rootOf [Demo.a] [(Demo.a, Demo.localA)] in
  exists mod' gb',
    exploreModule false Demo.world
      (buildModulesDependencyGraph false Demo.world 2) modRoot 0 2 a
      newGraphBuilder
    = (Ok mod', gb')
    /\ inDeclaredOrder Demo.aFile (Dependencies mod').
Proof.
  intros a modRoot.
  assert (exists mod' gb',
            exploreModule false Demo.world
              (buildModulesDependencyGraph false Demo.world 2) modRoot 0 2 a
              newGraphBuilder
            = (Ok mod', gb')) as (mod' & gb' & Hturn).
  { eexists _, _. vm_compute. reflexivity. }
  assert (exists gb1,
            extractLicenseAndRequiredModules false Demo.world modRoot a
              newGraphBuilder
            = (Ok (Some (mkModRoot Demo.aFile "/src/a"), Demo.mit,
                   [mkModule Demo.c None None []; mkModule Demo.b None None []]),
               gb1)) as [gb1 Hextract].
  { eexists. vm_compute. reflexivity. }
  exists mod', gb'. split; [exact Hturn|].
  exact (proj2 (proj2 (proj2
           (resolved_node_children false Demo.world 2 modRoot 0 2 a
              newGraphBuilder _ _ _ gb1 mod' gb'
              ltac:(lia) eq_refl Hextract Hturn)))).
Defined.

(** C9 (the code at the failing input). The root manifest requires
    example.com/b and example.com/a and replaces both by the local
    directory ../a, whose go.mod requires example.com/c and example.com/b
    without replacement; the go.mod in the archive of example.com/b
    requires example.com/c only. In the tree of the strict build with
    depth bound 2 the children of the root and of the two replaced modules
    follow their manifests, but the node of the example.com/b that
    example.com/a requires, which is not replaced, has the license and the
    children [c; b] of the directory /src/a: they are the ones of the
    replaced example.com/b of the root, found in the cache under the key
    the two nodes share, and not the requirements of a manifest of
    example.com/b. *)
Theorem children_of_another_manifest :
  let modRoot :=
    Demo.rootOf [Demo.b; Demo.a]
      [(Demo.b, Demo.localA); (Demo.a, Demo.localA)] in
  let mit := Some (License.mk Demo.mit "MIT") in
  let apache := Some (License.mk Demo.apache "Apache-2.0") in
  let fromA :=
    [mkModule Demo.c None mit []; mkModule Demo.b None apache []] in
  Demo.run false modRoot 2
  = Ok (mkTree
          (mkModule (Version.mk "example.com/root" "") None None
             [mkModule Demo.b (Some Demo.localA) mit fromA;
              mkModule Demo.a (Some Demo.localA) mit
                [mkModule Demo.c None mit [];
                 mkModule Demo.b None mit fromA]]))
  /\ map Version fromA = map modfile.Mod (modfile.Requires Demo.aFile)
  /\ zip_NewReader Demo.world Demo.bZip
     = Got [mkZipFile "example.com/b@v1.2.0/LICENSE" (Contents Demo.apache);
            mkZipFile "example.com/b@v1.2.0/b.go"
              (Contents (Demo.text "package b"));
            mkZipFile "example.com/b@v1.2.0/go.mod" (Contents Demo.bGoMod)]
  /\ modfile_Parse Demo.world Demo.bGoMod = Got Demo.bFile
  /\ map modfile.Mod (modfile.Requires Demo.bFile) = [Demo.c]
  /\ moduleID (mkModule Demo.b None None [])
     = moduleID (mkModule Demo.b (Some Demo.localA) None []).
Proof. repeat split; by vm_compute. Qed.
